(** * newline-checker: the binary classifier, the path filter and the
      traversal + fix engine of [main.go], embedded and verified.

    The Go program walks a directory, skips hidden paths and files with a
    known binary extension, reads every other regular file, classifies the
    content as text or binary and reports (or, with [-fix], appends) a
    missing trailing newline.

    Layout of this file:
    - Part I   the embedding: Go's [int] and [float64], the pieces of
               [strings], [bytes], [path/filepath] and [os] that [main.go]
               calls, then [isBinary], [shouldSkipFile], [checkAndFixFile]
               and [processRepository];
    - Part II  facts about binary64 division, needed for the 30% test;
    - Part III the properties of the classifier and of the path filter;
    - Part IV  the properties of the traversal and of the fix step;
    - Part V   these properties at concrete inputs;
    - Part VI  further properties of the code, among them the path filter
               read on the path itself and the rewrite of a file by a run;
    - Part VII the further properties at concrete inputs. *)

From Stdlib Require Import ZArith Lia List Bool Ascii String.
From Stdlib Require Import Strings.Byte.
From Stdlib Require Import Floats.SpecFloat.
From stdpp Require Import base gmap strings list fin_maps pretty.

Local Open Scope Z_scope.

(* ===================================================================== *)
(** * Part I: the embedding                                               *)
(* ===================================================================== *)

(** ** Go's [int] (64 bits, two's complement) *)

(** [wrap_int z] is the value a Go [int] holds after an operation whose
    mathematical result is [z]. *)
Definition wrap_int (z : Z) : Z := (z + 2 ^ 63) mod 2 ^ 64 - 2 ^ 63.

(** [x++] on an [int]. *)
Definition int_incr (x : Z) : Z := wrap_int (x + 1).

(** [len(s)] of a slice, as an [int]. *)
Definition len {A} (s : list A) : Z := Z.of_nat (length s).

(** ** Go's [float64]: IEEE 754 binary64, as specified by [SpecFloat] *)

Module Float64.

Definition prec : Z := 53.
Definition emax : Z := 1024.

(** [float64(n)] for an [int] [n]: rounding to nearest, ties to even. *)
Definition of_int (n : Z) : spec_float := binary_normalize prec emax n 0 false.

(** [x / y]. *)
Definition div (x y : spec_float) : spec_float := SFdiv prec emax x y.

(** [x > y]. *)
Definition gt (x y : spec_float) : bool := SFltb y x.

(** The constant [0.3]: Go converts an untyped constant to the nearest
    [float64], here 0x3FD3333333333333 = 5404319552844595 * 2^-54. *)
Definition c0_3 : spec_float := S754_finite false 5404319552844595 (-54).

End Float64.

(** Names used by the proofs of Part II. *)
Definition two52 : Z := 4503599627370496.
Definition two53 : Z := 9007199254740992.
Definition two54 : Z := 18014398509481984.
Definition two55 : Z := 36028797018963968.

(** Mantissa of [0.3] and the odd integer [2 * Mc + 1]: the quotient
    rounds above [0.3] exactly from [Kc / 2^55] on. *)
Definition Mc : Z := 5404319552844595.
Definition Kc : Z := 10808639105689191.

(** What [binary_round_aux] returns for a mantissa [M] in [[2^52, 2^53]]
    once the rounding is done: [2^53] is renormalised to [2^52]. *)
Definition pack (M e : Z) : spec_float :=
  if M =? two53 then S754_finite false (Z.to_pos two52) (e + 1)
  else S754_finite false (Z.to_pos M) e.

(** ** The binary classifier *)

(** [b < 32 && b != '\n' && b != '\r' && b != '\t'] *)
Definition isNonPrintable (b : byte) : bool :=
  (Byte.to_N b <? 32)%N
  && negb (Byte.eqb b x0a) && negb (Byte.eqb b x0d) && negb (Byte.eqb b x09).

(** First loop of [isBinary]: [for _, b := range data { if b == 0 { return true } }]. *)
Fixpoint hasNullByte (data : list byte) : bool :=
  match data with
  | [] => false
  | b :: rest => if Byte.eqb b x00 then true else hasNullByte rest
  end.

(** Second loop of [isBinary]: the counter [nonPrintable] after the loop. *)
Definition countNonPrintable (data : list byte) : Z :=
  fold_left (fun nonPrintable b =>
               if isNonPrintable b then int_incr nonPrintable else nonPrintable)
            data 0.

Definition isBinary (data : list byte) : bool :=
  if len data =? 0 then false
  else if hasNullByte data then true
  else Float64.gt (Float64.div (Float64.of_int (countNonPrintable data))
                               (Float64.of_int (len data)))
                  Float64.c0_3.

(** The count the specification speaks of: the bytes below 0x20 other
    than 0x0A, 0x0D and 0x09. *)
Definition spec_nonPrintable (b : byte) : bool :=
  (Byte.to_N b <? 32)%N
  && negb ((Byte.to_N b =? 10)%N || (Byte.to_N b =? 13)%N || (Byte.to_N b =? 9)%N).

Definition spec_count (data : list byte) : Z :=
  Z.of_nat (length (filter (fun b => spec_nonPrintable b = true) data)).

(** The 30% test is studied for buffers of at most 2^52 bytes (4 PiB).
    Every buffer the program can hold is far below: the Go runtime
    addresses at most 2^48 bytes of heap on linux/amd64. *)
Definition maxBuffer : Z := 2 ^ 52.

(** ** [strings] and [bytes] *)

(** [strings.Split(s, sep)] for a one-byte separator. *)
Fixpoint Split (s : string) (sep : ascii) : list string :=
  match s with
  | EmptyString => [EmptyString]
  | String c rest =>
      if Ascii.eqb c sep then EmptyString :: Split rest sep
      else match Split rest sep with
           | [] => [String c EmptyString]
           | part :: parts => String c part :: parts
           end
  end.

(** [strings.HasPrefix(s, prefix)] *)
Definition HasPrefix (s prefix : string) : bool := String.prefix prefix s.

(** [strings.ReplaceAll(s, old, new)] for one-byte [old] and [new]. *)
Fixpoint ReplaceAll (s : string) (old new : ascii) : string :=
  match s with
  | EmptyString => EmptyString
  | String c rest => String (if Ascii.eqb c old then new else c) (ReplaceAll rest old new)
  end.

(** [c >= utf8.RuneSelf] fails for every byte of the string. *)
Fixpoint isASCII (s : string) : bool :=
  match s with
  | EmptyString => true
  | String c rest => (N_of_ascii c <? 128)%N && isASCII rest
  end.

(** ['A' <= c && c <= 'Z'] then [c += 'a' - 'A']. *)
Definition lowerByte (c : ascii) : ascii :=
  if (65 <=? N_of_ascii c)%N && (N_of_ascii c <=? 90)%N
  then ascii_of_N (N_of_ascii c + 32) else c.

Fixpoint lowerASCII (s : string) : string :=
  match s with
  | EmptyString => EmptyString
  | String c rest => String (lowerByte c) (lowerASCII rest)
  end.

(** [bytes.Equal(a, b)] *)
Fixpoint bytes_Equal (a b : list byte) : bool :=
  match a, b with
  | [], [] => true
  | x :: a', y :: b' => Byte.eqb x y && bytes_Equal a' b'
  | _, _ => false
  end.

(** [bytes.HasSuffix(s, suffix)]:
    [len(s) >= len(suffix) && Equal(s[len(s)-len(suffix):], suffix)] *)
Definition bytes_HasSuffix (s suffix : list byte) : bool :=
  (len suffix <=? len s)
  && bytes_Equal (drop (length s - length suffix)%nat s) suffix.

(** ** The platform *)

Inductive GOOS := unix | windows.

(** What [main.go] takes from the platform and from the Go library
    without our modelling its inside:
    - [goos]: which separators [path/filepath] uses;
    - [filepath_Rel base targ]: [filepath.Rel], [None] when it returns an
      error;
    - [strings_MapToLower s]: [strings.Map(unicode.ToLower, s)], the branch
      [strings.ToLower] takes for a string that is not pure ASCII. *)
Class Platform := {
  goos : GOOS;
  filepath_Rel : string -> string -> option string;
  strings_MapToLower : string -> string
}.

(** ** The file system and the process output *)

Definition error := string.

(** A regular file: its bytes and its permission bits. *)
Record File := mkFile { content : list byte; mode : Z }.

(** One call of [os.WriteFile(name, data, perm)]. *)
Record WriteCall := mkWriteCall {
  wc_name : string; wc_data : list byte; wc_perm : Z
}.

(** The world the program runs in: the regular files by path, the calls
    of [os.WriteFile] made so far, and what was printed on standard
    output (one element per [fmt.Printf] / [fmt.Println]).

    Assumption: every path names a file of its own.  [os.ReadFile] and
    [os.WriteFile] follow symbolic links, and two hard links share their
    bytes, so in a tree with links a write through one path shows under
    another; the map below does not show that.  The properties of fix
    mode are therefore stated on the calls of [os.WriteFile] and on the
    file found under a visited path after the run, which hold with links
    as well; nothing is claimed about how many paths one write changes. *)
Record World := mkWorld {
  files : gmap string File;
  writes : list WriteCall;
  stdout : list string
}.

(** The process owns the files and is not root: it may read a file when
    the owner-read bit (0400) is set and write it when the owner-write bit
    (0200) is set. *)
Definition ownerReadable (f : File) : bool := Z.testbit (mode f) 8.
Definition ownerWritable (f : File) : bool := Z.testbit (mode f) 7.

(** [os.ReadFile(name)] *)
Definition os_ReadFile (name : string) (w : World) : list byte + error :=
  match files w !! name with
  | None => inr ("open " +:+ name +:+ ": no such file or directory")
  | Some f =>
      if ownerReadable f then inl (content f)
      else inr ("open " +:+ name +:+ ": permission denied")
  end.

(** [os.WriteFile(name, data, perm)]: truncates and rewrites an existing
    file, keeping its mode; creates a missing one with mode [perm]. *)
Definition os_WriteFile (name : string) (data : list byte) (perm : Z) (w : World)
  : option error * World :=
  let called := writes w ++ [mkWriteCall name data perm] in
  match files w !! name with
  | None =>
      (None, mkWorld (<[name := mkFile data perm]> (files w)) called (stdout w))
  | Some f =>
      if ownerWritable f
      then (None, mkWorld (<[name := mkFile data (mode f)]> (files w)) called (stdout w))
      else (Some ("open " +:+ name +:+ ": permission denied"),
            mkWorld (files w) called (stdout w))
  end.

(** [fmt.Printf] / [fmt.Println] with the text already formatted. *)
Definition print (s : string) (w : World) : World :=
  mkWorld (files w) (writes w) (stdout w ++ [s]).

(** The newline character of a Go string literal. *)
Definition nl : string := String (ascii_of_N 10) EmptyString.

(** ** [os.FileInfo] and [filepath.Walk] *)

Record FileInfo := mkFileInfo { IsDir : bool }.

(** One call that [filepath.Walk] makes to its function: the path, the
    [FileInfo] and the error of [Lstat] or of reading the directory. *)
Record WalkEntry := mkWalkEntry {
  we_path : string; we_info : FileInfo; we_err : option error
}.

(** Counters of [processRepository]. *)
Record Stats := mkStats {
  totalFiles : Z; fixedFiles : Z; skippedFiles : Z;
  problematicFiles : list string
}.

(** [filepath.Walk] over the entries of a tree, in the order Walk visits
    them: the function is called on each entry in turn and the walk stops
    at the first error it returns.  (The function of [main.go] never
    returns [filepath.SkipDir].) *)
Fixpoint filepath_Walk (entries : list WalkEntry)
    (fn : string -> FileInfo -> option error -> Stats -> World -> option error * Stats * World)
    (st : Stats) (w : World) : option error * Stats * World :=
  match entries with
  | [] => (None, st, w)
  | e :: rest =>
      match fn (we_path e) (we_info e) (we_err e) st w with
      | (Some err, st', w') => (Some err, st', w')
      | (None, st', w') => filepath_Walk rest fn st' w'
      end
  end.

(** ** The program *)

Definition binaryExts : list string :=
  [ ".exe"; ".dll"; ".so"; ".dylib"; ".a"; ".o";
    ".jpg"; ".jpeg"; ".png"; ".gif"; ".bmp"; ".ico"; ".svg";
    ".mp3"; ".mp4"; ".avi"; ".mov"; ".wav";
    ".zip"; ".tar"; ".gz"; ".bz2"; ".7z"; ".rar";
    ".pdf"; ".doc"; ".docx"; ".xls"; ".xlsx";
    ".pyc"; ".pyo"; ".class"; ".jar";
    ".db"; ".sqlite"; ".sqlite3" ]%string.

(** The deny-list as the specification spells it. *)
Definition spec_denyList : list string :=
  [ ".exe"; ".dll"; ".so"; ".dylib"; ".a"; ".o"; ".jpg"; ".jpeg"; ".png";
    ".gif"; ".bmp"; ".ico"; ".svg"; ".mp3"; ".mp4"; ".avi"; ".mov"; ".wav";
    ".zip"; ".tar"; ".gz"; ".bz2"; ".7z"; ".rar"; ".pdf"; ".doc"; ".docx";
    ".xls"; ".xlsx"; ".pyc"; ".pyo"; ".class"; ".jar"; ".db"; ".sqlite";
    ".sqlite3" ]%string.

(** Permission argument of the rewrite: [0o644]. *)
Definition perm_0o644 : Z := 420.

Section Program.
Context `{Platform}.

(** [filepath.Separator] *)
Definition Separator : ascii :=
  match goos with unix => "/"%char | windows => "\"%char end.

(** [os.IsPathSeparator(c)] *)
Definition IsPathSeparator (c : ascii) : bool :=
  match goos with
  | unix => Ascii.eqb c "/"
  | windows => Ascii.eqb c "\" || Ascii.eqb c "/"
  end.

(** [filepath.ToSlash(path)] *)
Definition ToSlash (path : string) : string :=
  if Ascii.eqb Separator "/" then path else ReplaceAll path Separator "/".

(** The loop of [filepath.Ext]: [rpath] holds [path[0..i]] reversed and
    [suffix] holds [path[i+1:]]. *)
Fixpoint Ext_loop (rpath : list ascii) (suffix : string) : string :=
  match rpath with
  | [] => EmptyString
  | c :: before =>
      if IsPathSeparator c then EmptyString
      else if Ascii.eqb c "." then String c suffix
      else Ext_loop before (String c suffix)
  end.

(** [filepath.Ext(path)] *)
Definition Ext (path : string) : string :=
  Ext_loop (rev (list_ascii_of_string path)) EmptyString.

(** [strings.ToLower(s)] *)
Definition ToLower (s : string) : string :=
  if isASCII s then lowerASCII s else strings_MapToLower s.

(** [strings.HasPrefix(part, ".") && part != "."] *)
Definition isHiddenPart (part : string) : bool :=
  HasPrefix part "." && negb (String.eqb part ".").

Definition shouldSkipFile (path : string) : bool :=
  let parts := Split (ToSlash path) "/" in
  if existsb isHiddenPart parts then true
  else
    let ext := ToLower (Ext path) in
    if existsb (fun binExt => String.eqb ext binExt) binaryExts then true
    else false.

Definition checkAndFixFile (path : string) (fix_ : bool) (w : World)
  : (bool * option error) * World :=
  match os_ReadFile path w with
  | inr err => ((false, Some ("failed to read file: " +:+ err)), w)
  | inl data =>
      if len data =? 0 then ((true, None), w)
      else if isBinary data then ((true, None), w)
      else
        let endsWithNewline := bytes_HasSuffix data [x0a] in
        if negb endsWithNewline && fix_ then
          let data := data ++ [x0a] in
          match os_WriteFile path data perm_0o644 w with
          | (Some err, w') => ((false, Some ("failed to write file: " +:+ err)), w')
          | (None, w') => ((false, None), w')
          end
        else ((endsWithNewline, None), w)
  end.

(** [relPath, err := filepath.Rel(repoPath, path); if err != nil { relPath = path }] *)
Definition relPathOf (repoPath path : string) : string :=
  match filepath_Rel repoPath path with
  | Some rel => rel
  | None => path
  end.

(** The function [processRepository] hands to [filepath.Walk]. *)
Definition walkFn (repoPath : string) (fix_ : bool)
    (path : string) (info : FileInfo) (err : option error)
    (st : Stats) (w : World) : option error * Stats * World :=
  match err with
  | Some e => (Some e, st, w)
  | None =>
      if IsDir info then (None, st, w)
      else
        let relPath := relPathOf repoPath path in
        if shouldSkipFile relPath then
          (None,
           mkStats (totalFiles st) (fixedFiles st) (int_incr (skippedFiles st))
                   (problematicFiles st),
           w)
        else
          let st := mkStats (int_incr (totalFiles st)) (fixedFiles st)
                            (skippedFiles st) (problematicFiles st) in
          match checkAndFixFile path fix_ w with
          | ((_, Some err), w') =>
              (None, st,
               print ("Error processing " +:+ relPath +:+ ": " +:+ err +:+ nl) w')
          | ((endsWithNewline, None), w') =>
              if negb endsWithNewline then
                if fix_ then
                  (None,
                   mkStats (totalFiles st) (int_incr (fixedFiles st))
                           (skippedFiles st) (problematicFiles st),
                   print ("Fixed: " +:+ relPath +:+ nl) w')
                else
                  (None,
                   mkStats (totalFiles st) (fixedFiles st) (skippedFiles st)
                           (problematicFiles st ++ [relPath]),
                   w')
              else (None, st, w')
          end
  end.

(** The summary printed after a walk that did not fail. *)
Definition printSummary (fix_ : bool) (st : Stats) (w : World) : World :=
  let w := print (nl +:+ "=== Summary ===" +:+ nl) w in
  let w := print ("Total files checked: " +:+ pretty (totalFiles st) +:+ nl) w in
  let w := print ("Files skipped: " +:+ pretty (skippedFiles st) +:+ nl) w in
  if fix_ then
    let w := print ("Files fixed: " +:+ pretty (fixedFiles st) +:+ nl) w in
    if fixedFiles st =? 0
    then print ("All files already end with newline!" +:+ nl) w
    else w
  else
    let w := print ("Files missing newline: "
                    +:+ pretty (len (problematicFiles st)) +:+ nl) w in
    if 0 <? len (problematicFiles st) then
      let w := print (nl +:+ "Files that don't end with newline:" +:+ nl) w in
      let w := fold_left (fun w file => print ("  - " +:+ file +:+ nl) w)
                         (problematicFiles st) w in
      print (nl +:+ "Run with -fix flag to automatically add newlines" +:+ nl) w
    else print ("All files end with newline!" +:+ nl) w.

(** [processRepository(repoPath, fix)], run on the entries [tree] that
    [filepath.Walk(repoPath, ...)] visits.  Besides the returned error
    the result shows the counters at the end of the walk. *)
Definition processRepository (tree : list WalkEntry) (repoPath : string)
    (fix_ : bool) (w : World) : option error * Stats * World :=
  match filepath_Walk tree (walkFn repoPath fix_) (mkStats 0 0 0 []) w with
  | (Some err, st, w') => (Some ("failed to walk repository: " +:+ err), st, w')
  | (None, st, w') => (None, st, printSummary fix_ st w')
  end.

End Program.

(** ** Notions used to state the properties of the traversal *)

(** Parts of the result of a run. *)
Definition run_err (r : option error * Stats * World) : option error := fst (fst r).
Definition run_stats (r : option error * Stats * World) : Stats := snd (fst r).
Definition run_world (r : option error * Stats * World) : World := snd r.

(** The last byte of the content is 0x0A. *)
Definition endsWithLF (data : list byte) : bool :=
  match last data with
  | Some b => Byte.eqb b x0a
  | None => false
  end.

(** A readable, non-empty text file without a trailing newline. *)
Definition missingNewline (fs : gmap string File) (path : string) : bool :=
  match fs !! path with
  | Some f =>
      ownerReadable f && negb (len (content f) =? 0)
      && negb (isBinary (content f)) && negb (endsWithLF (content f))
  | None => false
  end.

(** The file with one 0x0A byte appended. *)
Definition fixFile (f : File) : File := mkFile (content f ++ [x0a]) (mode f).

(** Such a file that the process may also write. *)
Definition fixable (fs : gmap string File) (path : string) : bool :=
  match fs !! path with
  | Some f => missingNewline fs path && ownerWritable f
  | None => false
  end.

(** The entries the walk hands to the function before it stops: all of
    them up to the first one that carries an error. *)
Fixpoint visited (entries : list WalkEntry) : list WalkEntry :=
  match entries with
  | [] => []
  | e :: rest =>
      match we_err e with
      | Some _ => []
      | None => e :: visited rest
      end
  end.

(** The visited entries that are regular files. *)
Definition regularFiles (entries : list WalkEntry) : list WalkEntry :=
  List.filter (fun e => negb (IsDir (we_info e))) (visited entries).

(** The five outcomes of a visit to a regular file. *)
Inductive Bucket := BSkipped | BFine | BFixed | BMissing | BErrored.

Definition Bucket_eq_dec (a b : Bucket) : {a = b} + {a <> b}.
Proof. decide equality. Defined.

(** How many visits fell into bucket [b]. *)
Definition countB (b : Bucket) (bs : list Bucket) : Z :=
  Z.of_nat (count_occ Bucket_eq_dec bs b).

(** The bucket of one visit as a list: empty for a directory. *)
Definition olist (ob : option Bucket) : list Bucket :=
  match ob with
  | Some b => [b]
  | None => []
  end.

Section Outcomes.
Context `{Platform}.

(** A visited entry that is a regular file and passes the path filter. *)
Definition isChecked (repoPath : string) (e : WalkEntry) : bool :=
  negb (IsDir (we_info e))
  && negb (shouldSkipFile (relPathOf repoPath (we_path e))).

Definition checked (repoPath : string) (entries : list WalkEntry) : list WalkEntry :=
  List.filter (isChecked repoPath) (visited entries).

(** The bucket of the visit to [e] in world [w]; [None] for a directory
    and for an entry that carries a walk error. *)
Definition bucketOf (repoPath : string) (fix_ : bool) (e : WalkEntry) (w : World)
  : option Bucket :=
  match we_err e with
  | Some _ => None
  | None =>
      if IsDir (we_info e) then None
      else if shouldSkipFile (relPathOf repoPath (we_path e)) then Some BSkipped
      else match fst (checkAndFixFile (we_path e) fix_ w) with
           | (_, Some _) => Some BErrored
           | (true, None) => Some BFine
           | (false, None) => Some (if fix_ then BFixed else BMissing)
           end
  end.

(** The buckets of the visits of a walk, each taken in the world the
    walk has reached at that visit. *)
Fixpoint buckets (repoPath : string) (fix_ : bool) (entries : list WalkEntry)
    (st : Stats) (w : World) : list Bucket :=
  match entries with
  | [] => []
  | e :: rest =>
      match walkFn repoPath fix_ (we_path e) (we_info e) (we_err e) st w with
      | (Some _, _, _) => []
      | (None, st', w') =>
          match bucketOf repoPath fix_ e w with
          | Some b => b :: buckets repoPath fix_ rest st' w'
          | None => buckets repoPath fix_ rest st' w'
          end
      end
  end.

(** The relative paths of the checked files that miss the newline in
    the file system [fs], in the order of the walk. *)
Definition spec_missingList (repoPath : string) (fs : gmap string File)
    (entries : list WalkEntry) : list string :=
  map (fun e => relPathOf repoPath (we_path e))
      (List.filter (fun e => missingNewline fs (we_path e)) (checked repoPath entries)).

End Outcomes.

(** ** A concrete platform and concrete trees, for the examples *)

(** [filepath.Rel] for a clean root and the paths Walk builds below it. *)
Definition Rel_below (base targ : string) : option string :=
  if String.eqb targ base then Some "."%string
  else if String.prefix (base +:+ "/") targ
       then Some (String.substring (String.length base + 1)
                                   (String.length targ - (String.length base + 1)) targ)
       else None.

(** Linux; the examples use ASCII paths only, for which [strings.ToLower]
    never reaches [strings.Map]. *)
Definition linux : Platform :=
  {| goos := unix; filepath_Rel := Rel_below; strings_MapToLower := fun s => s |}.

(** [filepath.Rel] on Windows, for a clean root and the paths Walk builds
    below it with the separator of the platform. *)
Definition Rel_below_windows (base targ : string) : option string :=
  if String.eqb targ base then Some "."%string
  else if String.prefix (base +:+ "\") targ
       then Some (String.substring (String.length base + 1)
                                   (String.length targ - (String.length base + 1)) targ)
       else None.

(** Windows, again for ASCII paths. *)
Definition mswindows : Platform :=
  {| goos := windows; filepath_Rel := Rel_below_windows;
     strings_MapToLower := fun s => s |}.

Definition dirEntry (path : string) : WalkEntry :=
  mkWalkEntry path (mkFileInfo true) None.
Definition fileEntry (path : string) : WalkEntry :=
  mkWalkEntry path (mkFileInfo false) None.

(** [repo/a.txt] = "hello" and [repo/b.txt] = "hello\n", both rw-r--r--. *)
Definition hello : list byte := list_byte_of_string "hello".
Definition tree_ab : list WalkEntry :=
  [dirEntry "repo"; fileEntry "repo/a.txt"; fileEntry "repo/b.txt"].
Definition world_ab : World :=
  mkWorld (<["repo/a.txt"%string := mkFile hello 420]>
             (<["repo/b.txt"%string := mkFile (hello ++ [x0a]) 420]> ∅))
          [] [].

(** [repo/a.txt] = "hello" with mode 0: the process cannot read it. *)
Definition tree_a : list WalkEntry := [dirEntry "repo"; fileEntry "repo/a.txt"].
Definition world_unreadable : World :=
  mkWorld (<["repo/a.txt"%string := mkFile hello 0]> ∅) [] [].

(** Ten bytes, three of them 0x01: exactly 30% of non-printable bytes. *)
Definition thirty_percent : list byte :=
  [x01; x01; x01] ++ list_byte_of_string "abcdefg".

(** ** [main] *)

(** What a run of [main] leaves behind: the exit status, the lines
    written to standard error, and the world. *)
Record Exit := mkExit {
  exitCode : Z; stderr : list string; finalWorld : World
}.

Section Main.
Context `{Platform}.

(** [main()] from the point where [flag.Parse()] has returned:
    [progName] is [os.Args[0]], [fix_] the value of the [-fix] flag,
    [args] is [flag.Args()], [os_Stat] answers [os.Stat], and
    [walk repoPath] lists the entries [filepath.Walk] visits from
    [repoPath].  A return from [main] is exit status 0. *)
Definition main (progName : string) (fix_ : bool) (args : list string)
    (os_Stat : string -> FileInfo + error) (walk : string -> list WalkEntry)
    (w : World) : Exit :=
  match args with
  | [repoPath] =>
      match os_Stat repoPath with
      | inr err => mkExit 1 ["Error: " +:+ err +:+ nl] w
      | inl info =>
          if negb (IsDir info)
          then mkExit 1 ["Error: " +:+ repoPath +:+ " is not a directory" +:+ nl] w
          else
            match processRepository (walk repoPath) repoPath fix_ w with
            | (Some err, _, w') => mkExit 1 ["Error: " +:+ err +:+ nl] w'
            | (None, _, w') => mkExit 0 [] w'
            end
      end
  | _ => mkExit 1 ["Usage: " +:+ progName +:+ " [-fix] <repository_path>" +:+ nl] w
  end.

End Main.

(** ** Notions used to state the further properties *)

(** The error of the first entry of a walk that carries one. *)
Fixpoint firstWalkError (entries : list WalkEntry) : option error :=
  match entries with
  | [] => None
  | e :: rest =>
      match we_err e with
      | Some err => Some err
      | None => firstWalkError rest
      end
  end.

(** A directory that [Lstat] and the directory read report without error. *)
Definition isPlainDir (e : WalkEntry) : bool :=
  IsDir (we_info e) && match we_err e with None => true | Some _ => false end.

(** The number of bytes the second loop of [isBinary] counts. *)
Definition nonPrintableNat (data : list byte) : nat :=
  length (List.filter isNonPrintable data).

(** ** The tables of the repository's tests *)

(** [TestIsBinary]: the data and the expected answer. *)
Definition TestIsBinary_table : list (list byte * bool) :=
  [ ([], false);
    (list_byte_of_string "Hello, World!" ++ [x0a], false);
    ([x00; x01; x02], true);
    ([x01; x02; x03; x04; x05; x06; x07; x08; x0b; x0c], true);
    (list_byte_of_string "Hello" ++ [x09] ++ list_byte_of_string "World"
       ++ [x0d; x0a] ++ list_byte_of_string "Test", false) ].

(** [TestShouldSkipFile]: the path and the expected answer. *)
Definition TestShouldSkipFile_table : list (string * bool) :=
  [ ("main.go", false); (".gitignore", true); (".git/config", true);
    ("program.exe", true); ("image.jpg", true); ("README.md", false);
    ("data.sqlite", true); ("IMAGE.PNG", true) ]%string.

(** [TestCheckAndFixFile]: the content, the flag, the expected answer and
    the expected content afterwards; no case expects an error. *)
Definition TestCheckAndFixFile_table : list (list byte * bool * bool * list byte) :=
  [ (list_byte_of_string "Hello, World!" ++ [x0a], false, true,
     list_byte_of_string "Hello, World!" ++ [x0a]);
    (list_byte_of_string "Hello, World!", false, false,
     list_byte_of_string "Hello, World!");
    (list_byte_of_string "Hello, World!", true, false,
     list_byte_of_string "Hello, World!" ++ [x0a]);
    ([], false, true, []);
    ([x00; x01; x02], false, true, [x00; x01; x02]) ].

(** One case of [TestCheckAndFixFile]: the file is written with mode
    0644, [checkAndFixFile] is called, and the answer and the content are
    compared with the expected ones. *)
Definition runCheckAndFixFileCase (c : list byte * bool * bool * list byte) : bool :=
  let '(fileContent, fix_, expectedResult, expectedContent) := c in
  let w := mkWorld (<["test_file.txt"%string := mkFile fileContent 420]> ∅) [] [] in
  match checkAndFixFile "test_file.txt" fix_ w with
  | ((result, None), w') =>
      Bool.eqb result expectedResult
      && match os_ReadFile "test_file.txt" w' with
         | inl actual => bytes_Equal actual expectedContent
         | inr _ => false
         end
  | ((_, Some _), _) => false
  end.

(** A read-only [repo/a.txt] = "hello". *)
Definition world_readonly : World :=
  mkWorld (<["repo/a.txt"%string := mkFile hello 292]> ∅) [] [].

(* ===================================================================== *)
(** * Part II: binary64 division of two counters, compared with 0.3       *)
(* ===================================================================== *)

(** The quotient of two integers below 2^53 is computed by [SFdiv] on two
    normalised mantissas; the lemmas below follow the steps of
    [SFdiv_core_binary] and [binary_round_aux] and end with the exact
    threshold of [float64(n) / float64(m) > 0.3]. *)

Lemma digits2_pos_size p : digits2_pos p = Pos.size p.
Proof. induction p; simpl; congruence. Qed.

Lemma Zdigits2_bounds x : 0 < x -> 2 ^ (Zdigits2 x - 1) <= x < 2 ^ Zdigits2 x.
Proof.
  destruct x as [|p|p]; try lia. intros _. simpl Zdigits2.
  rewrite digits2_pos_size.
  pose proof (Pos.size_gt p) as Hgt. pose proof (Pos.size_le p) as Hle.
  apply Pos2Z.pos_lt_pos in Hgt. apply Pos2Z.pos_le_pos in Hle.
  rewrite Pos2Z.inj_pow in Hgt, Hle.
  split; [|exact Hgt].
  replace (Z.pos (Pos.size p)) with (Z.succ (Z.pos (Pos.size p) - 1)) in Hle by lia.
  rewrite Z.pow_succ_r in Hle by lia. lia.
Qed.

Lemma Zdigits2_unique x k : 0 < k -> 2 ^ (k - 1) <= x < 2 ^ k -> Zdigits2 x = k.
Proof.
  intros Hk [Hlo Hhi].
  assert (Hx : 0 < x) by (pose proof (Z.pow_pos_nonneg 2 (k - 1)); lia).
  destruct (Zdigits2_bounds x Hx) as [Blo Bhi].
  assert (Hd : 0 < Zdigits2 x) by (destruct x; simpl; lia).
  destruct (Z.lt_trichotomy (Zdigits2 x) k) as [H|[H|H]]; [exfalso| exact H | exfalso].
  - assert (2 ^ Zdigits2 x <= 2 ^ (k - 1)) by (apply Z.pow_le_mono_r; lia). lia.
  - assert (2 ^ k <= 2 ^ (Zdigits2 x - 1)) by (apply Z.pow_le_mono_r; lia). lia.
Qed.

Lemma fexp64 z : -1021 <= z -> fexp Float64.prec Float64.emax z = z - 53.
Proof. unfold fexp, emin, Float64.prec, Float64.emax. lia. Qed.


Lemma digits53 q : two52 <= q < two53 -> Zdigits2 q = 53.
Proof. intros H. apply Zdigits2_unique; [lia|]. exact H. Qed.

Lemma digits54 q : two53 <= q < two54 -> Zdigits2 q = 54.
Proof. intros H. apply Zdigits2_unique; [lia|]. exact H. Qed.

Lemma shr_fexp_53 q e l :
  two52 <= q < two53 -> -1074 <= e ->
  shr_fexp Float64.prec Float64.emax q e l = (shr_record_of_loc q l, e).
Proof.
  intros Hq He. unfold shr_fexp. rewrite (digits53 q Hq), fexp64 by lia.
  replace (53 + e - 53 - e) with 0 by lia. reflexivity.
Qed.

Lemma shr_fexp_54 q e l :
  two53 <= q < two54 -> -1074 <= e ->
  shr_fexp Float64.prec Float64.emax q e l = (shr_1 (shr_record_of_loc q l), e + 1).
Proof.
  intros Hq He. unfold shr_fexp. rewrite (digits54 q Hq), fexp64 by lia.
  replace (54 + e - 53 - e) with 1 by lia. reflexivity.
Qed.

Lemma rne_bounds q l : q <= round_nearest_even q l <= q + 1.
Proof. destruct l as [|[| |]]; simpl; try lia. destruct (Z.even q); lia. Qed.

Lemma shr_m_record_of_loc q l : shr_m (shr_record_of_loc q l) = q.
Proof. destruct l as [|[| |]]; reflexivity. Qed.

Lemma loc_of_record_of_loc q l : loc_of_shr_record (shr_record_of_loc q l) = l.
Proof. destruct l as [|[| |]]; reflexivity. Qed.


Lemma round_tail M e :
  two52 <= M <= two53 -> -1074 <= e <= 969 ->
  (let '(mrs, e') := shr_fexp Float64.prec Float64.emax M e loc_Exact in
   match shr_m mrs with
   | Z0 => S754_zero false
   | Zpos m => if Z.leb e' (Float64.emax - Float64.prec) then S754_finite false m e' else S754_infinity false
   | Zneg _ => S754_nan
   end) = pack M e.
Proof.
  intros HM He. unfold pack.
  destruct (Z.eqb_spec M two53) as [->|Hne].
  - rewrite shr_fexp_54 by (unfold two53, two54; lia).
    assert (Hle : (e + 1 <=? Float64.emax - Float64.prec) = true) by (apply Z.leb_le; unfold Float64.emax, Float64.prec; lia).
    cbn [shr_record_of_loc shr_1 shr_m two53]. rewrite Hle. reflexivity.
  - rewrite shr_fexp_53 by lia. cbn [shr_record_of_loc shr_m].
    destruct M as [|p|p]; try (unfold two52 in *; lia).
    assert (Hle : (e <=? Float64.emax - Float64.prec) = true) by (apply Z.leb_le; unfold Float64.emax, Float64.prec; lia).
    rewrite Hle. reflexivity.
Qed.

Lemma round_aux_53 q e l :
  two52 <= q < two53 -> -1074 <= e <= 969 ->
  binary_round_aux Float64.prec Float64.emax false q e l = pack (round_nearest_even q l) e.
Proof.
  intros Hq He. unfold binary_round_aux.
  rewrite shr_fexp_53 by lia.
  rewrite shr_m_record_of_loc, loc_of_record_of_loc.
  apply round_tail; [|lia]. pose proof (rne_bounds q l). lia.
Qed.

Lemma shr_1_spec q l :
  0 < q ->
  shr_1 (shr_record_of_loc q l) =
  {| shr_m := q / 2; shr_r := Z.odd q;
     shr_s := match l with loc_Exact => false | _ => true end |}.
Proof.
  intros Hq. destruct q as [|p|p]; try lia.
  assert (H1 : forall p, Z.pos p~1 / 2 = Z.pos p).
  { intros p'. symmetry. apply Z.div_unique with (r := 1); lia. }
  assert (H0 : forall p, Z.pos p~0 / 2 = Z.pos p).
  { intros p'. symmetry. apply Z.div_unique with (r := 0); lia. }
  destruct p; rewrite ?H1, ?H0; destruct l as [|[| |]]; reflexivity.
Qed.

Lemma round_aux_54 q e l :
  two53 <= q < two54 -> -1074 <= e <= 968 ->
  binary_round_aux Float64.prec Float64.emax false q e l =
  let mrs := shr_1 (shr_record_of_loc q l) in
  pack (round_nearest_even (shr_m mrs) (loc_of_shr_record mrs)) (e + 1).
Proof.
  intros Hq He. unfold binary_round_aux.
  rewrite shr_fexp_54 by lia. cbv zeta.
  apply round_tail; [|lia].
  set (mrs := shr_1 (shr_record_of_loc q l)).
  pose proof (rne_bounds (shr_m mrs) (loc_of_shr_record mrs)) as Hb.
  assert (Hm : shr_m mrs = q / 2).
  { subst mrs. rewrite shr_1_spec by (unfold two53 in *; lia). reflexivity. }
  rewrite Hm in *.
  assert (two52 <= q / 2 < two53).
  { split; [apply Z.div_le_lower_bound | apply Z.div_lt_upper_bound]; unfold two52, two53, two54 in *; lia. }
  lia.
Qed.

Lemma shl_align_spec mx ex ex' :
  ex' <= ex ->
  exists mz, shl_align mx ex ex' = (mz, ex') /\ Z.pos mz = Z.pos mx * 2 ^ (ex - ex').
Proof.
  intros Hle. unfold shl_align.
  destruct (ex' - ex) as [|d|d] eqn:Hd; try lia.
  - exists mx. replace ex' with ex by lia. rewrite Z.sub_diag, Z.mul_1_r. auto.
  - exists (Pos.iter xO mx d). split; [reflexivity|].
    rewrite (Pos.iter_swap_gen _ _ Z.pos xO (Z.mul 2)) by reflexivity.
    change (Pos.iter (Z.mul 2) (Z.pos mx) d) with (Z.shiftl (Z.pos mx) (Z.pos d)).
    rewrite Z.shiftl_mul_pow2 by lia. f_equal. f_equal. lia.
Qed.

Lemma pack_normal M e : two52 <= M < two53 -> pack M e = S754_finite false (Z.to_pos M) e.
Proof.
  intros HM. unfold pack. destruct (Z.eqb_spec M two53); [lia|reflexivity].
Qed.

Lemma of_int_pos n :
  0 < n < two53 ->
  exists mx, Float64.of_int n = S754_finite false mx (Zdigits2 n - 53)
             /\ Z.pos mx = n * 2 ^ (53 - Zdigits2 n)
             /\ two52 <= Z.pos mx < two53.
Proof.
  intros Hn. destruct n as [|p|p]; try lia.
  pose proof (Zdigits2_bounds (Z.pos p) ltac:(lia)) as [Blo Bhi].
  set (d := Zdigits2 (Z.pos p)) in *.
  assert (Hd : 1 <= d <= 53).
  { split; [subst d; simpl; lia|].
    destruct (Z_le_gt_dec d 53) as [|Hgt]; [assumption|exfalso].
    assert (2 ^ 53 <= 2 ^ (d - 1)) by (apply Z.pow_le_mono_r; lia).
    unfold two53 in Hn. change (2 ^ 53) with 9007199254740992 in *. lia. }
  unfold Float64.of_int, binary_normalize, binary_round.
  change (Z.pos (digits2_pos p)) with d.
  rewrite Z.add_0_r, fexp64 by lia.
  destruct (shl_align_spec p 0 (d - 53) ltac:(lia)) as (mz & -> & Hmz).
  replace (0 - (d - 53)) with (53 - d) in Hmz by lia.
  assert (Hrange : two52 <= Z.pos mz < two53).
  { assert (H52 : two52 = 2 ^ (d - 1) * 2 ^ (53 - d)).
    { rewrite <- Z.pow_add_r by lia. replace (d - 1 + (53 - d)) with 52 by lia. reflexivity. }
    assert (H53 : two53 = 2 ^ d * 2 ^ (53 - d)).
    { rewrite <- Z.pow_add_r by lia. replace (d + (53 - d)) with 53 by lia. reflexivity. }
    assert (0 < 2 ^ (53 - d)) by (apply Z.pow_pos_nonneg; lia).
    rewrite Hmz, H52, H53.
    split; [apply Z.mul_le_mono_nonneg_r | apply Z.mul_lt_mono_pos_r]; lia. }
  exists mz. split; [|split; assumption].
  rewrite round_aux_53 by lia. cbn [round_nearest_even].
  rewrite pack_normal by assumption. reflexivity.
Qed.

Lemma new_location_spec my r :
  0 < my -> 0 <= r < my ->
  new_location my r = if r =? 0 then loc_Exact else loc_Inexact (2 * r ?= my).
Proof.
  intros Hmy Hr. unfold new_location.
  destruct (Z.even my) eqn:Hev; unfold new_location_even, new_location_odd;
    destruct (Z.eqb_spec r 0) as [->|Hne]; try reflexivity.
  assert (Hodd : Z.odd my = true) by (rewrite <- Z.negb_even, Hev; reflexivity).
  apply Z.odd_spec in Hodd. destruct Hodd as [k Hk].
  destruct (Z.compare_spec (2 * r + 1) my), (Z.compare_spec (2 * r) my); try reflexivity; lia.
Qed.

Lemma SFdiv_normal mx ex my ey :
  two52 <= Z.pos mx < two53 -> two52 <= Z.pos my < two53 ->
  -52 <= ex <= 0 -> -52 <= ey <= 0 ->
  Float64.div (S754_finite false mx ex) (S754_finite false my ey) =
  binary_round_aux Float64.prec Float64.emax false (Z.pos mx * two53 / Z.pos my) (ex - ey - 53)
    (new_location (Z.pos my) ((Z.pos mx * two53) mod Z.pos my)).
Proof.
  intros Hx Hy Hex Hey. unfold Float64.div, SFdiv, SFdiv_core_binary.
  rewrite (digits53 _ Hx), (digits53 _ Hy).
  rewrite fexp64 by lia.
  replace (Z.min (53 + ex - (53 + ey) - 53) (ex - ey)) with (ex - ey - 53) by lia.
  replace (ex - ey - (ex - ey - 53)) with 53 by lia.
  rewrite Z.shiftl_mul_pow2 by lia. change (2 ^ 53) with two53.
  unfold Z.modulo, Z.div.
  destruct (Z.div_eucl (Z.pos mx * two53) (Z.pos my)) as [q r]. reflexivity.
Qed.


Lemma gt_c_pack M E :
  two52 <= M <= two53 ->
  Float64.gt (pack M E) Float64.c0_3 = true <-> -54 < E \/ (E = -54 /\ Mc < M).
Proof.
  intros HM. unfold pack, Float64.gt, Float64.c0_3, SFltb, SFcompare.
  destruct (Z.eqb_spec M two53) as [->|Hne].
  - destruct (Z.compare_spec (-54) (E + 1)) as [Heq|Hlt|Hgt]; cbn;
      unfold Mc, two53; (split; intros H; [try discriminate H; lia | try reflexivity; lia]).
  - destruct M as [|p|p]; try (unfold two52 in *; lia).
    cbn [Z.to_pos].
    destruct (Z.compare_spec (-54) E) as [Heq|Hlt|Hgt].
    + change (Pos.compare_cont Eq 5404319552844595 p) with (Z.pos 5404319552844595 ?= Z.pos p).
      destruct (Z.compare_spec 5404319552844595 (Z.pos p)); unfold Mc;
        (split; intros H'; [try discriminate H'; lia | try reflexivity; lia]).
    + split; intros H; [lia | reflexivity].
    + split; intros H; [discriminate H | lia].
Qed.

Lemma rne_gt_Mc_53 q r Y :
  0 < Y -> 0 <= r < Y ->
  Mc < round_nearest_even q (if r =? 0 then loc_Exact else loc_Inexact (2 * r ?= Y))
  <-> Kc * Y <= 2 * (q * Y + r).
Proof.
  intros HY Hr.
  set (l := if r =? 0 then loc_Exact else loc_Inexact (2 * r ?= Y)).
  pose proof (rne_bounds q l) as Hb.
  destruct (Z.lt_trichotomy q Mc) as [Hlt|[Heq|Hgt]].
  - assert (q * Y <= (Mc - 1) * Y) by (apply Z.mul_le_mono_nonneg_r; lia).
    unfold Mc, Kc in *. lia.
  - subst q l. unfold Kc, Mc.
    destruct (Z.eqb_spec r 0) as [->|Hne]; [cbn [round_nearest_even]; lia|].
    destruct (Z.compare_spec (2 * r) Y); cbn [round_nearest_even Z.even]; lia.
  - assert ((Mc + 1) * Y <= q * Y) by (apply Z.mul_le_mono_nonneg_r; lia).
    unfold Mc, Kc in *. lia.
Qed.

Lemma rne_gt_Mc_54 q s :
  0 <= q ->
  Mc < round_nearest_even (q / 2)
         (loc_of_shr_record {| shr_m := q / 2; shr_r := Z.odd q; shr_s := s |})
  <-> Kc <= q.
Proof.
  intros Hq.
  set (l := loc_of_shr_record _).
  pose proof (rne_bounds (q / 2) l) as Hb.
  pose proof (Z.div_mod q 2 ltac:(lia)) as Hdm.
  pose proof (Z.mod_pos_bound q 2 ltac:(lia)) as Hmod.
  destruct (Z.lt_trichotomy (q / 2) Mc) as [Hlt|[Heq|Hgt]].
  - unfold Mc, Kc in *. lia.
  - subst l. rewrite Heq. rewrite Zodd_mod. unfold Mc, Kc in *.
    destruct (Z.eqb_spec (q mod 2) 1) as [H1|H1]; destruct s;
      cbn [loc_of_shr_record round_nearest_even Z.even]; lia.
  - unfold Mc, Kc in *. lia.
Qed.

Lemma div_gt_spec mx my a b :
  two52 <= Z.pos mx < two53 -> two52 <= Z.pos my < two53 ->
  0 <= a <= 52 -> 0 <= b <= 52 ->
  Float64.gt (Float64.div (S754_finite false mx (- a)) (S754_finite false my (- b)))
             Float64.c0_3 = true
  <-> Kc * Z.pos my * 2 ^ a <= Z.pos mx * two55 * 2 ^ b.
Proof.
  intros HX HY Ha Hb.
  rewrite SFdiv_normal by lia.
  set (X := Z.pos mx) in *. set (Y := Z.pos my) in *.
  pose proof (Z.div_mod (X * two53) Y ltac:(lia)) as Hdm.
  pose proof (Z.mod_pos_bound (X * two53) Y ltac:(lia)) as Hr.
  rewrite new_location_spec by lia.
  set (q := X * two53 / Y) in *. set (r := (X * two53) mod Y) in *.
  set (e := - a - - b - 53).
  assert (HP : 0 < 2 ^ a) by (apply Z.pow_pos_nonneg; lia).
  assert (HQ : 0 < 2 ^ b) by (apply Z.pow_pos_nonneg; lia).
  assert (Hq52 : two52 <= q).
  { apply Z.div_le_lower_bound; [lia|]. unfold two52, two53 in *. nia. }
  assert (Hq54 : q < two54).
  { apply Z.div_lt_upper_bound; [lia|]. unfold two52, two53, two54 in *. nia. }
  (* the right-hand side, by the difference of the exponents *)
  assert (Hrhs : Kc * Y * 2 ^ a <= X * two55 * 2 ^ b <->
                 (a <= b \/ (a = b + 1 /\ Kc * Y <= 2 * (Y * q + r))
                         \/ (a = b + 2 /\ Kc * Y <= Y * q + r))).
  { destruct (Z_le_gt_dec a b) as [Hab|Hab].
    - assert (2 ^ a <= 2 ^ b) by (apply Z.pow_le_mono_r; lia).
      split; [intros _; left; exact Hab|intros _].
      apply Z.le_trans with (X * two55 * 2 ^ a).
      + apply Z.mul_le_mono_nonneg_r; [lia|]. unfold Kc, two52, two53, two55 in *. lia.
      + apply Z.mul_le_mono_nonneg_l; [unfold two52, two55 in *; lia | assumption].
    - destruct (Z.eq_dec a (b + 1)) as [E1|N1]; [|destruct (Z.eq_dec a (b + 2)) as [E2|N2]].
      + rewrite E1, Z.pow_add_r by lia. change (2 ^ 1) with 2.
        replace (Kc * Y * (2 ^ b * 2)) with (2 * Kc * Y * 2 ^ b) by ring.
        rewrite <- Z.mul_le_mono_pos_r by assumption.
        unfold two53 in Hdm. unfold two55. split; [intros H; right; left; split; [reflexivity|lia] | intros [?|[[_ ?]|[? _]]]; lia].
      + rewrite E2, Z.pow_add_r by lia. change (2 ^ 2) with 4.
        replace (Kc * Y * (2 ^ b * 4)) with (4 * Kc * Y * 2 ^ b) by ring.
        rewrite <- Z.mul_le_mono_pos_r by assumption.
        unfold two53 in Hdm. unfold two55. split; [intros H; right; right; split; [reflexivity|lia] | intros [?|[[? _]|[_ ?]]]; lia].
      + split; [intros H; exfalso | intros [?|[[? _]|[? _]]]; lia].
        assert (H8 : 8 * 2 ^ b <= 2 ^ a).
        { replace a with (b + (a - b)) by lia. rewrite Z.pow_add_r by lia.
          assert (2 ^ 3 <= 2 ^ (a - b)) by (apply Z.pow_le_mono_r; lia).
          change (2 ^ 3) with 8 in *. nia. }
        assert (Kc * Y * (8 * 2 ^ b) <= Kc * Y * 2 ^ a).
        { apply Z.mul_le_mono_nonneg_l; [unfold Kc, two52 in *; lia | assumption]. }
        assert (X * two55 * 2 ^ b < Kc * Y * 8 * 2 ^ b).
        { apply Z.mul_lt_mono_pos_r; [assumption|]. unfold Kc, two52, two53, two55 in *. lia. }
        lia. }
  rewrite Hrhs. clear Hrhs.
  destruct (Z_lt_ge_dec q two53) as [Hq|Hq].
  - (* quotient below 2^53: no shift before rounding *)
    assert (HXY : X < Y).
    { destruct (Z_lt_ge_dec X Y) as [|Hge]; [assumption|exfalso].
      assert (two53 <= q); [|lia].
      apply Z.div_le_lower_bound; [lia|]. nia. }
    rewrite round_aux_53 by (subst e; lia).
    rewrite gt_c_pack by (pose proof (rne_bounds q (if r =? 0 then loc_Exact else loc_Inexact (2 * r ?= Y))); lia).
    rewrite rne_gt_Mc_53 by lia.
    subst e. replace (q * Y) with (Y * q) by ring.
    split.
    + intros [H|[H1 H2]]; [left; lia | right; left; split; [lia | exact H2]].
    + intros [H|[[H1 H2]|[H1 H2]]]; [left; lia | right; split; [lia | exact H2] | exfalso].
      assert (Y * q < Y * two53) by (apply Z.mul_lt_mono_pos_l; lia).
      unfold Kc, two52, two53, two55 in *. lia.
  - (* quotient in [2^53, 2^54): one shift before rounding *)
    assert (HXY : Y <= X).
    { destruct (Z_le_gt_dec Y X) as [|Hlt]; [assumption|exfalso].
      assert (q < two53); [|lia].
      apply Z.div_lt_upper_bound; [lia|]. nia. }
    rewrite round_aux_54 by (subst e; lia). cbv zeta.
    rewrite shr_1_spec by (unfold two53 in *; lia).
    cbn [shr_m].
    rewrite gt_c_pack.
    2:{ match goal with |- _ <= round_nearest_even ?m ?l <= _ =>
          pose proof (rne_bounds m l) end.
        assert (two52 <= q / 2 < two53).
        { split; [apply Z.div_le_lower_bound | apply Z.div_lt_upper_bound];
            unfold two52, two53, two54 in *; lia. }
        lia. }
    rewrite rne_gt_Mc_54 by (unfold two53 in *; lia).
    subst e.
    split.
    + intros [H|[H1 H2]].
      * destruct (Z_le_gt_dec a b); [left; assumption | right; left; split; [lia|]].
        assert (Y * two53 <= Y * q) by (apply Z.mul_le_mono_nonneg_l; lia).
        unfold Kc, two52, two53, two55 in *. lia.
      * right; right. split; [lia|].
        assert (Y * Kc <= Y * q) by (apply Z.mul_le_mono_nonneg_l; lia). lia.
    + intros [H|[[H1 H2]|[H1 H2]]]; [left; lia | left; lia | right; split; [lia|]].
      destruct (Z_le_gt_dec Kc q) as [|Hlt]; [assumption|exfalso].
      assert (Y * q <= Y * (Kc - 1)) by (apply Z.mul_le_mono_nonneg_l; lia). lia.
Qed.

(** [float64(n) / float64(m) > 0.3] for two counters below 2^53: the
    quotient rounds above the constant exactly when [n / m >= Kc / 2^55]. *)
Lemma ratio_threshold n m :
  0 <= n < two53 -> 0 < m < two53 ->
  Float64.gt (Float64.div (Float64.of_int n) (Float64.of_int m)) Float64.c0_3 = true
  <-> Kc * m <= n * two55.
Proof.
  intros Hn Hm.
  destruct (of_int_pos m Hm) as (my & Emy & Hmy & Rmy).
  destruct (Z.eq_dec n 0) as [->|Hn0].
  - rewrite Emy. cbn. unfold Kc. split; [discriminate | lia].
  - destruct (of_int_pos n ltac:(lia)) as (mx & Emx & Hmx & Rmx).
    rewrite Emx, Emy.
    pose proof (Zdigits2_bounds n ltac:(lia)) as [Bn1 Bn2].
    pose proof (Zdigits2_bounds m ltac:(lia)) as [Bm1 Bm2].
    assert (Dn : 1 <= Zdigits2 n <= 53).
    { split; [destruct n; simpl; lia|].
      destruct (Z_le_gt_dec (Zdigits2 n) 53) as [|Hgt]; [assumption|exfalso].
      assert (2 ^ 53 <= 2 ^ (Zdigits2 n - 1)) by (apply Z.pow_le_mono_r; lia).
      change (2 ^ 53) with two53 in *. lia. }
    assert (Dm : 1 <= Zdigits2 m <= 53).
    { split; [destruct m; simpl; lia|].
      destruct (Z_le_gt_dec (Zdigits2 m) 53) as [|Hgt]; [assumption|exfalso].
      assert (2 ^ 53 <= 2 ^ (Zdigits2 m - 1)) by (apply Z.pow_le_mono_r; lia).
      change (2 ^ 53) with two53 in *. lia. }
    replace (Zdigits2 n - 53) with (- (53 - Zdigits2 n)) by lia.
    replace (Zdigits2 m - 53) with (- (53 - Zdigits2 m)) by lia.
    rewrite div_gt_spec by lia.
    rewrite Hmx, Hmy.
    set (P := 2 ^ (53 - Zdigits2 n)). set (Q := 2 ^ (53 - Zdigits2 m)).
    assert (HP : 0 < P) by (apply Z.pow_pos_nonneg; lia).
    assert (HQ : 0 < Q) by (apply Z.pow_pos_nonneg; lia).
    replace (Kc * (m * Q) * P) with (Kc * m * (P * Q)) by ring.
    replace (n * P * two55 * Q) with (n * two55 * (P * Q)) by ring.
    symmetry. apply Z.mul_le_mono_pos_r. nia.
Qed.

(** Up to [maxBuffer] that threshold is the 30% of the specification. *)
Lemma ratio_30_percent n m :
  0 <= n <= m -> 0 < m <= maxBuffer ->
  Float64.gt (Float64.div (Float64.of_int n) (Float64.of_int m)) Float64.c0_3 = true
  <-> 3 * m < 10 * n.
Proof.
  intros Hn Hm. change maxBuffer with two52 in Hm.
  rewrite ratio_threshold by (unfold two52, two53 in *; lia).
  unfold Kc, two55, two52 in *. lia.
Qed.

(** Why a bound at all: for counters near 8 * 10^15 the quotient can lie
    above 3/10 and still round to the constant [0.3] itself. *)
Example ratio_beyond_maxBuffer :
  3 * 8000000000000003 < 10 * 2400000000000001
  /\ Float64.gt (Float64.div (Float64.of_int 2400000000000001)
                             (Float64.of_int 8000000000000003)) Float64.c0_3 = false.
Proof. split; reflexivity. Qed.

(** The constant is the double nearest to 3/10: the distance to 3/10 is
    below half a unit in the last place, 2^-55. *)
Lemma c0_3_nearest : 2 * Z.abs (10 * Mc - 3 * two54) < 10.
Proof. reflexivity. Qed.

(* ===================================================================== *)
(** * Part III: the binary classifier and the path filter                 *)
(* ===================================================================== *)

(** ** Counting *)

Lemma int_incr_small x : - 2 ^ 63 <= x + 1 < 2 ^ 63 -> int_incr x = x + 1.
Proof.
  intros Hx. unfold int_incr, wrap_int.
  rewrite Z.mod_small by lia. lia.
Qed.

Lemma isNonPrintable_spec b : isNonPrintable b = spec_nonPrintable b.
Proof. destruct b; reflexivity. Qed.

Lemma spec_count_nil : spec_count [] = 0.
Proof. reflexivity. Qed.

Lemma spec_count_cons b data :
  spec_count (b :: data) =
  (if spec_nonPrintable b then 1 else 0) + spec_count data.
Proof.
  unfold spec_count. rewrite filter_cons.
  destruct (decide (spec_nonPrintable b = true)) as [Hb|Hb].
  - rewrite Hb. cbn [length]. lia.
  - apply not_true_is_false in Hb. rewrite Hb. lia.
Qed.

Lemma spec_count_bounds data : 0 <= spec_count data <= len data.
Proof.
  induction data as [|b data IH]; [rewrite spec_count_nil; unfold len; cbn [length]; lia|].
  rewrite spec_count_cons. unfold len in *. cbn [length].
  destruct (spec_nonPrintable b); lia.
Qed.

Lemma spec_count_app data1 data2 :
  spec_count (data1 ++ data2) = spec_count data1 + spec_count data2.
Proof.
  induction data1 as [|b data1 IH]; [reflexivity|].
  cbn [app]. rewrite !spec_count_cons, IH. lia.
Qed.

(** The loop counter equals the count of the specification as long as the
    [int] does not overflow. *)
Lemma count_loop data : forall acc,
  0 <= acc -> acc + len data < 2 ^ 63 ->
  fold_left (fun nonPrintable b =>
               if isNonPrintable b then int_incr nonPrintable else nonPrintable)
            data acc
  = acc + spec_count data.
Proof.
  induction data as [|b data IH]; intros acc Hacc Hlen.
  - cbn. rewrite spec_count_nil. lia.
  - cbn [fold_left]. rewrite spec_count_cons, isNonPrintable_spec.
    unfold len in *. cbn [length] in Hlen.
    pose proof (spec_count_bounds data) as Hb. unfold len in Hb.
    destruct (spec_nonPrintable b).
    + rewrite int_incr_small by lia. rewrite IH by lia. lia.
    + rewrite IH by lia. lia.
Qed.

Lemma countNonPrintable_spec data :
  len data < 2 ^ 63 -> countNonPrintable data = spec_count data.
Proof.
  intros Hlen. unfold countNonPrintable. rewrite count_loop by lia. lia.
Qed.

Lemma hasNullByte_In data : hasNullByte data = true <-> In x00 data.
Proof.
  induction data as [|b data IH]; cbn [hasNullByte In].
  - split; [discriminate | tauto].
  - destruct (Byte.eqb b x00) eqn:Hb.
    + apply Byte.byte_dec_bl in Hb. tauto.
    + rewrite IH. split; [tauto|]. intros [Heq|Hin]; [|exact Hin].
      subst b. discriminate Hb.
Qed.

Lemma hasNullByte_app data1 data2 :
  hasNullByte (data1 ++ data2) = hasNullByte data1 || hasNullByte data2.
Proof.
  induction data1 as [|b data1 IH]; [reflexivity|].
  cbn [app hasNullByte]. destruct (Byte.eqb b x00); [reflexivity | exact IH].
Qed.

Lemma len_pos {A} (s : list A) : s <> [] -> 0 < len s.
Proof. destruct s; [congruence|]. unfold len. cbn [length]. lia. Qed.

Lemma len_app {A} (s t : list A) : len (s ++ t) = len s + len t.
Proof. unfold len. rewrite length_app. lia. Qed.

(** [isBinary] on a non-empty buffer without a null byte is the 30% test. *)
Lemma isBinary_no_null data :
  data <> [] -> hasNullByte data = false -> len data <= maxBuffer ->
  isBinary data = true <-> 3 * len data < 10 * spec_count data.
Proof.
  intros Hne Hnull Hlen. unfold isBinary.
  pose proof (len_pos data Hne) as Hpos.
  destruct (Z.eqb_spec (len data) 0) as [H0|_]; [lia|].
  rewrite Hnull.
  rewrite countNonPrintable_spec by (unfold maxBuffer in Hlen; lia).
  apply ratio_30_percent; [apply spec_count_bounds | lia].
Qed.

(** ** The classifier *)

(** C3: on a non-empty buffer without a 0x00 byte the classifier answers
    binary exactly when the bytes below 0x20 other than 0x0A, 0x0D and
    0x09 are more than 30% of the buffer; at exactly 30% it answers
    not-binary.  (Buffers of at most [maxBuffer] = 2^52 bytes.) *)
Theorem isBinary_thirty_percent (data : list byte) :
  data <> [] -> ~ In x00 data -> len data <= maxBuffer ->
  (isBinary data = true <-> 3 * len data < 10 * spec_count data)
  /\ (10 * spec_count data = 3 * len data -> isBinary data = false).
Proof.
  intros Hne Hnull Hlen.
  assert (Hn : hasNullByte data = false).
  { apply not_true_is_false. rewrite hasNullByte_In. exact Hnull. }
  pose proof (isBinary_no_null data Hne Hn Hlen) as Hiff.
  split; [exact Hiff|].
  intros Heq. apply not_true_is_false. rewrite Hiff. lia.
Qed.

(** The first loop answers before the counting starts. *)
Lemma isBinary_hasNullByte data : hasNullByte data = true -> isBinary data = true.
Proof.
  intros Hnull. unfold isBinary.
  destruct (Z.eqb_spec (len data) 0) as [H0|_].
  - destruct data; [discriminate Hnull | unfold len in H0; cbn [length] in H0; lia].
  - rewrite Hnull. reflexivity.
Qed.

(** C8: a buffer that contains a 0x00 byte is classified binary. *)
Theorem isBinary_null_byte (data : list byte) :
  In x00 data -> isBinary data = true.
Proof.
  intros Hin. apply isBinary_hasNullByte, hasNullByte_In, Hin.
Qed.

(** C10: appending one 0x0A byte to a non-empty buffer classified as text
    leaves it classified as text.  (Buffers below [maxBuffer] = 2^52
    bytes.) *)
Theorem isBinary_append_newline (b : list byte) :
  b <> [] -> len b < maxBuffer -> isBinary b = false ->
  isBinary (b ++ [x0a]) = false.
Proof.
  intros Hne Hlen Htext.
  assert (Hn : hasNullByte b = false).
  { destruct (hasNullByte b) eqn:E; [|reflexivity].
    apply isBinary_hasNullByte in E. congruence. }
  assert (Hne' : b ++ [x0a] <> []) by (destruct b; discriminate).
  assert (Hn' : hasNullByte (b ++ [x0a]) = false).
  { rewrite hasNullByte_app, Hn. reflexivity. }
  assert (Hlen' : len (b ++ [x0a]) <= maxBuffer).
  { rewrite len_app. unfold len at 2. cbn [length]. lia. }
  apply not_true_is_false. rewrite (isBinary_no_null _ Hne' Hn' Hlen').
  assert (Hb : ~ 3 * len b < 10 * spec_count b).
  { rewrite <- (isBinary_no_null b Hne Hn ltac:(lia)). congruence. }
  rewrite spec_count_app, len_app.
  unfold len at 2. cbn [length]. rewrite spec_count_cons, spec_count_nil.
  cbn. lia.
Qed.

(** ** The path filter *)

Section PathFilter.
Context `{Platform}.

(** [Split] cuts at every separator and nowhere else: joining the parts
    with the separator gives the string back. *)
Lemma Split_nonempty s sep : Split s sep <> [].
Proof.
  destruct s as [|c rest]; cbn [Split]; [discriminate|].
  destruct (Ascii.eqb c sep); [discriminate|].
  destruct (Split rest sep); discriminate.
Qed.

Lemma Split_join s sep :
  String.concat (String sep EmptyString) (Split s sep) = s.
Proof.
  induction s as [|c rest IH]; [reflexivity|]. cbn [Split].
  destruct (Ascii.eqb_spec c sep) as [->|Hne].
  - pose proof (Split_nonempty rest sep) as Hn.
    destruct (Split rest sep) as [|part parts] eqn:E; [congruence|].
    change (String.concat (String sep EmptyString) (EmptyString :: part :: parts))
      with (String sep (String.concat (String sep EmptyString) (part :: parts))).
    f_equal. exact IH.
  - destruct (Split rest sep) as [|part parts] eqn:E.
    + exfalso. exact (Split_nonempty rest sep E).
    + rewrite <- IH. destruct parts; reflexivity.
Qed.

Lemma append_nil_r (s : string) : s +:+ EmptyString = s.
Proof.
  induction s as [|c s IH]; [reflexivity|].
  change (String c (s +:+ EmptyString) = String c s). f_equal. exact IH.
Qed.

Lemma append_assoc (a b c : string) : (a +:+ b) +:+ c = a +:+ (b +:+ c).
Proof.
  induction a as [|x a IH]; [reflexivity|].
  change (String x ((a +:+ b) +:+ c) = String x (a +:+ (b +:+ c))). f_equal. exact IH.
Qed.

Lemma string_of_list_ascii_app (l1 l2 : list ascii) :
  string_of_list_ascii (l1 ++ l2) = string_of_list_ascii l1 +:+ string_of_list_ascii l2.
Proof.
  induction l1 as [|x l1 IH]; [reflexivity|].
  change (String x (string_of_list_ascii (l1 ++ l2))
          = String x (string_of_list_ascii l1 +:+ string_of_list_ascii l2)).
  f_equal. exact IH.
Qed.

Lemma list_ascii_of_string_app (a b : string) :
  list_ascii_of_string (a +:+ b) = list_ascii_of_string a ++ list_ascii_of_string b.
Proof.
  induction a as [|x a IH]; [reflexivity|].
  change (x :: list_ascii_of_string (a +:+ b)
          = x :: (list_ascii_of_string a ++ list_ascii_of_string b)).
  f_equal. exact IH.
Qed.

(** The loop of [filepath.Ext] runs through the bytes after the final
    dot of the final segment and returns the suffix from that dot. *)
Lemma Ext_loop_suffix (l : list ascii) : forall before suffix,
  forallb (fun c => negb (IsPathSeparator c) && negb (Ascii.eqb c ".")) l = true ->
  Ext_loop (l ++ "."%char :: before) suffix
  = String "." (string_of_list_ascii (rev l) +:+ suffix).
Proof.
  assert (Hdot : IsPathSeparator "." = false).
  { unfold IsPathSeparator. destruct goos; reflexivity. }
  induction l as [|c l IH]; intros before suffix Hl.
  - cbn. rewrite Hdot. reflexivity.
  - cbn [forallb] in Hl. apply andb_prop in Hl as [Hc Hl].
    apply andb_prop in Hc as [Hsep Hnd].
    apply negb_true_iff in Hsep, Hnd.
    cbn [app Ext_loop]. rewrite Hsep, Hnd, IH by exact Hl.
    cbn [rev]. rewrite string_of_list_ascii_app. cbn [string_of_list_ascii].
    rewrite append_assoc. reflexivity.
Qed.

Lemma Ext_final_dot (pre suf : string) :
  forallb (fun c => negb (IsPathSeparator c) && negb (Ascii.eqb c "."))
          (list_ascii_of_string suf) = true ->
  Ext (pre +:+ String "." suf) = String "." suf.
Proof.
  intros Hsuf. unfold Ext.
  rewrite list_ascii_of_string_app. cbn [list_ascii_of_string].
  rewrite rev_app_distr. cbn [rev]. rewrite <- app_assoc. cbn [app].
  rewrite Ext_loop_suffix.
  - rewrite rev_involutive, string_of_list_ascii_of_string.
    rewrite append_nil_r. reflexivity.
  - rewrite forallb_forall in *. intros c Hc. apply Hsuf.
    apply in_rev. exact Hc.
Qed.

Lemma binaryExts_spec : binaryExts = spec_denyList.
Proof. reflexivity. Qed.

End PathFilter.

(* ===================================================================== *)
(** * Part IV: the traversal and the fix step                             *)
(* ===================================================================== *)

(** ** [bytes.HasSuffix(data, "\n")] *)

Lemma bytes_Equal_single x y : bytes_Equal [x] [y] = Byte.eqb x y.
Proof. cbn. apply andb_true_r. Qed.

Lemma bytes_HasSuffix_LF data : bytes_HasSuffix data [x0a] = endsWithLF data.
Proof.
  unfold bytes_HasSuffix, endsWithLF.
  destruct data as [|b data] using rev_ind; [reflexivity|].
  rewrite last_snoc.
  unfold len. rewrite length_app. cbn [length].
  replace (length data + 1 - 1)%nat with (length data) by lia.
  rewrite drop_app_length, bytes_Equal_single.
  destruct (Z.leb_spec (Z.of_nat 1) (Z.of_nat (length data + 1))); [reflexivity | lia].
Qed.

Lemma endsWithLF_last data : endsWithLF data = true <-> last data = Some x0a.
Proof.
  unfold endsWithLF. destruct (last data) as [b|]; [|split; discriminate].
  split.
  - intros Hb. apply Byte.byte_dec_bl in Hb. congruence.
  - intros [= ->]. reflexivity.
Qed.

Lemma endsWithLF_snoc data : endsWithLF (data ++ [x0a]) = true.
Proof. unfold endsWithLF. rewrite last_snoc. reflexivity. Qed.

Lemma len_zero {A} (s : list A) : (len s =? 0) = true <-> s = [].
Proof.
  rewrite Z.eqb_eq. unfold len. destruct s; cbn [length]; split; (congruence || lia).
Qed.

(** ** One call of [checkAndFixFile] *)

Section FixStep.

(** In check mode the world is left as it is, and the answer is [false]
    exactly for a readable text file that misses the newline. *)
Lemma checkAndFixFile_check path w :
  checkAndFixFile path false w =
  (match os_ReadFile path w with
   | inr err => (false, Some ("failed to read file: " +:+ err))
   | inl _ => (negb (missingNewline (files w) path), None)
   end, w).
Proof.
  unfold checkAndFixFile, os_ReadFile, missingNewline.
  destruct (files w !! path) as [f|]; [|reflexivity].
  destruct (ownerReadable f); [|reflexivity]. cbn [andb].
  destruct (len (content f) =? 0); [reflexivity|].
  destruct (isBinary (content f)); [reflexivity|].
  rewrite bytes_HasSuffix_LF, andb_false_r. cbn [negb andb].
  rewrite negb_involutive. reflexivity.
Qed.

(** In fix mode a fixable file is rewritten with one more byte. *)
Lemma checkAndFixFile_fixable path w f :
  files w !! path = Some f -> fixable (files w) path = true ->
  checkAndFixFile path true w =
  ((false, None),
   mkWorld (<[path := mkFile (content f ++ [x0a]) (mode f)]> (files w))
           (writes w ++ [mkWriteCall path (content f ++ [x0a]) perm_0o644])
           (stdout w)).
Proof.
  intros Hf Hfix. unfold fixable, missingNewline in Hfix. rewrite Hf in Hfix.
  apply andb_prop in Hfix as [Hmiss Hw].
  apply andb_prop in Hmiss as [Hmiss Hlf].
  apply andb_prop in Hmiss as [Hmiss Hbin].
  apply andb_prop in Hmiss as [Hr Hlen].
  apply negb_true_iff in Hlf, Hbin, Hlen.
  unfold checkAndFixFile, os_ReadFile, os_WriteFile.
  rewrite Hf, Hr, Hlen, Hbin, bytes_HasSuffix_LF, Hlf, Hw. reflexivity.
Qed.

(** In fix mode any other file is left as it is and is not reported as
    fixed. *)
Lemma checkAndFixFile_not_fixable path w :
  fixable (files w) path = false ->
  files (snd (checkAndFixFile path true w)) = files w
  /\ fst (checkAndFixFile path true w) <> (false, None).
Proof.
  intros Hfix. unfold fixable, missingNewline in Hfix.
  unfold checkAndFixFile, os_ReadFile, os_WriteFile.
  destruct (files w !! path) as [f|]; [|split; [reflexivity | discriminate]].
  destruct (ownerReadable f); [|split; [reflexivity | discriminate]].
  cbn [andb] in Hfix.
  destruct (len (content f) =? 0); [split; [reflexivity | discriminate]|].
  destruct (isBinary (content f)); [split; [reflexivity | discriminate]|].
  rewrite bytes_HasSuffix_LF. cbn [negb andb] in Hfix.
  destruct (endsWithLF (content f)); cbn [negb andb] in *;
    [split; [reflexivity | discriminate]|].
  rewrite Hfix. split; [reflexivity | discriminate].
Qed.

End FixStep.

(** ** The walk *)

Section Traversal.
Context `{Platform}.

Lemma processRepository_stats tree repoPath fix_ w :
  run_stats (processRepository tree repoPath fix_ w)
  = run_stats (filepath_Walk tree (walkFn repoPath fix_) (mkStats 0 0 0 []) w).
Proof.
  unfold processRepository.
  destruct (filepath_Walk _ _ _ _) as [[[err|] st] w']; reflexivity.
Qed.

Lemma print_files s w : files (print s w) = files w.
Proof. reflexivity. Qed.

Lemma print_writes s w : writes (print s w) = writes w.
Proof. reflexivity. Qed.

Lemma print_lines_frame (lines : list string) : forall w,
  let w' := fold_left (fun w file => print ("  - " +:+ file +:+ nl) w) lines w in
  files w' = files w /\ writes w' = writes w.
Proof.
  induction lines as [|l lines IH]; intros w; [split; reflexivity|].
  cbn [fold_left]. destruct (IH (print ("  - " +:+ l +:+ nl) w)) as [Hf Hw].
  split; [rewrite Hf | rewrite Hw]; reflexivity.
Qed.

(** Printing the summary touches no file. *)
Lemma printSummary_frame fix_ st w :
  files (printSummary fix_ st w) = files w
  /\ writes (printSummary fix_ st w) = writes w.
Proof.
  unfold printSummary. destruct fix_.
  - destruct (fixedFiles st =? 0); split; reflexivity.
  - destruct (0 <? len (problematicFiles st)); [|split; reflexivity].
    rewrite print_files, print_writes.
    match goal with
    | |- context [fold_left _ ?ls ?w0] =>
        destruct (print_lines_frame ls w0) as [Hf Hw]
    end.
    cbv zeta in Hf, Hw. rewrite Hf, Hw. split; reflexivity.
Qed.

Lemma processRepository_files tree repoPath fix_ w :
  files (run_world (processRepository tree repoPath fix_ w))
  = files (run_world (filepath_Walk tree (walkFn repoPath fix_) (mkStats 0 0 0 []) w))
  /\ writes (run_world (processRepository tree repoPath fix_ w))
  = writes (run_world (filepath_Walk tree (walkFn repoPath fix_) (mkStats 0 0 0 []) w)).
Proof.
  unfold processRepository.
  destruct (filepath_Walk _ _ _ _) as [[[err|] st] w']; [split; reflexivity|].
  apply printSummary_frame.
Qed.

(** C1, as the code has it: when the read of a visited file fails, the
    walk goes on with the next entry; one line is printed for that file,
    no file is touched, and of the counters only the total of checked
    files moves: it is incremented. *)
Theorem read_failure_counted_in_total (repoPath : string) (fix_ : bool)
    (e : WalkEntry) (rest : list WalkEntry) (st : Stats) (w : World) (err : error) :
  we_err e = None -> IsDir (we_info e) = false ->
  shouldSkipFile (relPathOf repoPath (we_path e)) = false ->
  os_ReadFile (we_path e) w = inr err ->
  filepath_Walk (e :: rest) (walkFn repoPath fix_) st w =
  filepath_Walk rest (walkFn repoPath fix_)
    (mkStats (int_incr (totalFiles st)) (fixedFiles st) (skippedFiles st)
             (problematicFiles st))
    (mkWorld (files w) (writes w)
             (stdout w ++ ["Error processing " +:+ relPathOf repoPath (we_path e)
                           +:+ ": " +:+ ("failed to read file: " +:+ err) +:+ nl])).
Proof.
  intros Herr Hdir Hskip Hread.
  cbn [filepath_Walk]. unfold walkFn at 1.
  rewrite Herr, Hdir, Hskip. unfold checkAndFixFile. rewrite Hread.
  reflexivity.
Qed.

(** *** Check mode *)

Lemma spec_missingList_nil repoPath fs : spec_missingList repoPath fs [] = [].
Proof. reflexivity. Qed.

Lemma spec_missingList_cons repoPath fs e rest :
  spec_missingList repoPath fs (e :: rest) =
  match we_err e with
  | Some _ => []
  | None =>
      (if isChecked repoPath e && missingNewline fs (we_path e)
       then [relPathOf repoPath (we_path e)] else [])
      ++ spec_missingList repoPath fs rest
  end.
Proof.
  unfold spec_missingList, checked. cbn [visited].
  destruct (we_err e); [reflexivity|]. cbn [List.filter].
  destruct (isChecked repoPath e); [|reflexivity]. cbn [List.filter andb].
  destruct (missingNewline fs (we_path e)); reflexivity.
Qed.

(** One visit in check mode. *)
Lemma walkFn_check repoPath e st w :
  we_err e = None ->
  exists st' w',
    walkFn repoPath false (we_path e) (we_info e) (we_err e) st w = (None, st', w')
    /\ files w' = files w /\ writes w' = writes w
    /\ fixedFiles st' = fixedFiles st
    /\ problematicFiles st' =
       problematicFiles st ++
       (if isChecked repoPath e && missingNewline (files w) (we_path e)
        then [relPathOf repoPath (we_path e)] else []).
Proof.
  intros Herr. unfold walkFn, isChecked. rewrite Herr.
  destruct (IsDir (we_info e)).
  { exists st, w. cbn [negb andb]. rewrite app_nil_r. auto. }
  destruct (shouldSkipFile (relPathOf repoPath (we_path e))).
  { eexists _, w. cbn [negb andb]. split; [reflexivity|].
    cbn. rewrite app_nil_r. auto. }
  cbn [negb andb]. rewrite checkAndFixFile_check.
  destruct (os_ReadFile (we_path e) w) as [data|err] eqn:Hread.
  - destruct (missingNewline (files w) (we_path e)); cbn [negb].
    + eexists _, w. split; [reflexivity|]. cbn. auto.
    + eexists _, w. split; [reflexivity|]. cbn. rewrite app_nil_r. auto.
  - assert (Hm : missingNewline (files w) (we_path e) = false).
    { unfold missingNewline. unfold os_ReadFile in Hread.
      destruct (files w !! we_path e) as [f|]; [|reflexivity].
      destruct (ownerReadable f); [discriminate | reflexivity]. }
    rewrite Hm. eexists _, _. split; [reflexivity|]. cbn. rewrite app_nil_r. auto.
Qed.

Lemma walk_check repoPath entries : forall st w,
  let r := filepath_Walk entries (walkFn repoPath false) st w in
  files (run_world r) = files w /\ writes (run_world r) = writes w
  /\ fixedFiles (run_stats r) = fixedFiles st
  /\ problematicFiles (run_stats r) =
     problematicFiles st ++ spec_missingList repoPath (files w) entries.
Proof.
  induction entries as [|e rest IH]; intros st w.
  - cbn. rewrite app_nil_r. auto.
  - cbn zeta. rewrite spec_missingList_cons. cbn [filepath_Walk].
    destruct (we_err e) as [err|] eqn:Herr.
    + unfold walkFn. cbn. rewrite app_nil_r. auto.
    + destruct (walkFn_check repoPath e st w Herr)
        as (st' & w' & Hstep & Hf & Hw & Hfix & Hprob).
      rewrite Herr in Hstep. rewrite Hstep.
      destruct (IH st' w') as (IHf & IHw & IHfix & IHprob).
      rewrite IHf, IHw, IHfix, IHprob, Hf, Hw, Hfix, Hprob, <- app_assoc. auto.
Qed.

(** C9: in check mode no file is written: the files after the run are
    the files before it and [os.WriteFile] is never called; the files
    that miss the newline are only listed, in the order of the walk. *)
Theorem check_mode_never_writes (tree : list WalkEntry) (repoPath : string) (w : World) :
  files (run_world (processRepository tree repoPath false w)) = files w
  /\ writes (run_world (processRepository tree repoPath false w)) = writes w
  /\ fixedFiles (run_stats (processRepository tree repoPath false w)) = 0
  /\ problematicFiles (run_stats (processRepository tree repoPath false w))
     = spec_missingList repoPath (files w) tree.
Proof.
  destruct (processRepository_files tree repoPath false w) as [Hf Hw].
  rewrite Hf, Hw, processRepository_stats.
  destruct (walk_check repoPath tree (mkStats 0 0 0 []) w) as (H1 & H2 & H3 & H4).
  auto.
Qed.

(** *** The counters *)

Lemma countB_app b bs1 bs2 : countB b (bs1 ++ bs2) = countB b bs1 + countB b bs2.
Proof. unfold countB. rewrite count_occ_app. lia. Qed.

Lemma buckets_cons repoPath fix_ e rest st w st' w' :
  walkFn repoPath fix_ (we_path e) (we_info e) (we_err e) st w = (None, st', w') ->
  buckets repoPath fix_ (e :: rest) st w
  = olist (bucketOf repoPath fix_ e w) ++ buckets repoPath fix_ rest st' w'.
Proof.
  intros Hstep. cbn [buckets]. rewrite Hstep.
  destruct (bucketOf repoPath fix_ e w); reflexivity.
Qed.

(** One visit moves the counters by the bucket of the visit. *)
Lemma walkFn_bucket repoPath fix_ e st w :
  we_err e = None ->
  0 <= totalFiles st < 2 ^ 63 - 1 -> 0 <= fixedFiles st < 2 ^ 63 - 1 ->
  0 <= skippedFiles st < 2 ^ 63 - 1 ->
  exists st' w',
    walkFn repoPath fix_ (we_path e) (we_info e) (we_err e) st w = (None, st', w')
    /\ skippedFiles st' = skippedFiles st + countB BSkipped (olist (bucketOf repoPath fix_ e w))
    /\ totalFiles st' = totalFiles st
         + (countB BFine (olist (bucketOf repoPath fix_ e w))
            + countB BFixed (olist (bucketOf repoPath fix_ e w))
            + countB BMissing (olist (bucketOf repoPath fix_ e w))
            + countB BErrored (olist (bucketOf repoPath fix_ e w)))
    /\ fixedFiles st' = fixedFiles st + countB BFixed (olist (bucketOf repoPath fix_ e w))
    /\ len (problematicFiles st')
       = len (problematicFiles st) + countB BMissing (olist (bucketOf repoPath fix_ e w))
    /\ len (olist (bucketOf repoPath fix_ e w))
       = (if IsDir (we_info e) then 0 else 1).
Proof.
  intros Herr Ht Hf Hs. unfold walkFn, bucketOf. rewrite Herr.
  destruct (IsDir (we_info e)).
  { exists st, w. unfold countB, len. cbn. repeat split; lia. }
  destruct (shouldSkipFile (relPathOf repoPath (we_path e))).
  { eexists _, w. split; [reflexivity|].
    cbn [skippedFiles totalFiles fixedFiles problematicFiles].
    rewrite int_incr_small by lia. unfold countB, len. cbn. repeat split; lia. }
  destruct (checkAndFixFile (we_path e) fix_ w) as [[[] [err|]] w'] eqn:Hc;
    cbn [fst negb].
  - eexists _, _. split; [reflexivity|].
    cbn [skippedFiles totalFiles fixedFiles problematicFiles].
    rewrite int_incr_small by lia. unfold countB, len. cbn. repeat split; lia.
  - eexists _, _. split; [reflexivity|].
    cbn [skippedFiles totalFiles fixedFiles problematicFiles].
    rewrite int_incr_small by lia. unfold countB, len. cbn. repeat split; lia.
  - eexists _, _. split; [reflexivity|].
    cbn [skippedFiles totalFiles fixedFiles problematicFiles].
    rewrite int_incr_small by lia. unfold countB, len. cbn. repeat split; lia.
  - destruct fix_.
    + eexists _, _. split; [reflexivity|].
      cbn [skippedFiles totalFiles fixedFiles problematicFiles].
      rewrite !int_incr_small by lia. unfold countB, len. cbn. repeat split; lia.
    + eexists _, _. split; [reflexivity|].
      cbn [skippedFiles totalFiles fixedFiles problematicFiles].
      rewrite int_incr_small by lia. rewrite len_app.
      unfold countB, len. cbn. repeat split; lia.
Qed.

Lemma regularFiles_cons e rest :
  we_err e = None ->
  len (regularFiles (e :: rest))
  = (if IsDir (we_info e) then 0 else 1) + len (regularFiles rest).
Proof.
  intros Herr. unfold regularFiles. cbn [visited]. rewrite Herr. cbn [List.filter].
  destruct (IsDir (we_info e)); cbn [negb]; [reflexivity|].
  unfold len. cbn [length]. lia.
Qed.

Lemma walk_counts repoPath fix_ entries : forall st w,
  0 <= totalFiles st -> 0 <= fixedFiles st -> 0 <= skippedFiles st ->
  totalFiles st + len entries < 2 ^ 63 ->
  fixedFiles st + len entries < 2 ^ 63 ->
  skippedFiles st + len entries < 2 ^ 63 ->
  let r := filepath_Walk entries (walkFn repoPath fix_) st w in
  let bs := buckets repoPath fix_ entries st w in
  skippedFiles (run_stats r) = skippedFiles st + countB BSkipped bs
  /\ totalFiles (run_stats r) = totalFiles st
       + (countB BFine bs + countB BFixed bs + countB BMissing bs + countB BErrored bs)
  /\ fixedFiles (run_stats r) = fixedFiles st + countB BFixed bs
  /\ len (problematicFiles (run_stats r))
     = len (problematicFiles st) + countB BMissing bs
  /\ len bs = len (regularFiles entries).
Proof.
  induction entries as [|e rest IH]; intros st w Ht Hf Hs Bt Bf Bs.
  - unfold countB, len. cbn. repeat split; lia.
  - cbn zeta. unfold len in Bt, Bf, Bs. cbn [length] in Bt, Bf, Bs.
    destruct (we_err e) as [err|] eqn:Herr.
    + cbn [filepath_Walk buckets]. unfold walkFn, regularFiles. cbn [visited].
      rewrite Herr. unfold countB, len. cbn. repeat split; lia.
    + destruct (walkFn_bucket repoPath fix_ e st w Herr ltac:(lia) ltac:(lia) ltac:(lia))
        as (st' & w' & Hstep & Es & Et & Ef & Ep & El).
      rewrite (buckets_cons _ _ _ _ _ _ _ _ Hstep).
      cbn [filepath_Walk]. rewrite Hstep.
      rewrite (regularFiles_cons e rest Herr), len_app, !countB_app.
      set (b1 := olist (bucketOf repoPath fix_ e w)) in *.
      assert (Hc : forall b, 0 <= countB b b1 <= 1).
      { intros b. unfold countB.
        pose proof (count_occ_bound Bucket_eq_dec b b1) as Hb.
        subst b1. unfold len in El.
        destruct (IsDir (we_info e)); lia. }
      pose proof (Hc BSkipped). pose proof (Hc BFine). pose proof (Hc BFixed).
      pose proof (Hc BMissing). pose proof (Hc BErrored).
      assert (Hsum : countB BFine b1 + countB BFixed b1 + countB BMissing b1
                     + countB BErrored b1 <= 1).
      { subst b1. destruct (bucketOf repoPath fix_ e w) as [[]|];
          unfold countB; cbn; lia. }
      unfold len in IH.
      destruct (IH st' w' ltac:(lia) ltac:(lia) ltac:(lia)
                   ltac:(lia) ltac:(lia) ltac:(lia))
        as (I1 & I2 & I3 & I4 & I5).
      unfold len in *. rewrite I1, I2, I3, I4, I5, Es, Et, Ef, Ep, El.
      repeat split; lia.
Qed.

(** C2, as the code has it: every visited regular file falls into
    exactly one of five buckets, the fifth being the files whose read or
    write failed; the skipped counter and the total of checked files add
    up to the number of visited regular files, and the total of checked
    files is fine + fixed + missing + errored. *)
Theorem every_file_in_one_bucket (tree : list WalkEntry) (repoPath : string)
    (fix_ : bool) (w : World) :
  len tree < 2 ^ 63 ->
  let st := run_stats (processRepository tree repoPath fix_ w) in
  let bs := buckets repoPath fix_ tree (mkStats 0 0 0 []) w in
  len bs = len (regularFiles tree)
  /\ skippedFiles st + totalFiles st = len (regularFiles tree)
  /\ totalFiles st
     = countB BFine bs + countB BFixed bs + countB BMissing bs + countB BErrored bs
  /\ skippedFiles st = countB BSkipped bs
  /\ fixedFiles st = countB BFixed bs
  /\ len (problematicFiles st) = countB BMissing bs.
Proof.
  intros Hlen. cbn zeta. rewrite processRepository_stats.
  destruct (walk_counts repoPath fix_ tree (mkStats 0 0 0 []) w)
    as (H1 & H2 & H3 & H4 & H5); cbn [totalFiles fixedFiles skippedFiles]; try lia.
  cbn [totalFiles fixedFiles skippedFiles problematicFiles] in *.
  set (bs := buckets repoPath fix_ tree (mkStats 0 0 0 []) w) in *.
  assert (Hall : countB BSkipped bs + countB BFine bs + countB BFixed bs
                 + countB BMissing bs + countB BErrored bs = len bs).
  { clearbody bs. clear. induction bs as [|b bs IH]; [reflexivity|].
    unfold countB, len in *. cbn [count_occ length].
    destruct b; cbn; lia. }
  unfold len in *. cbn [length] in H4.
  repeat split; lia.
Qed.

(** *** Fix mode *)

Lemma fixable_insert_ne fs p q f :
  p <> q -> fixable (<[q := f]> fs) p = fixable fs p.
Proof.
  intros Hne. unfold fixable, missingNewline.
  rewrite lookup_insert_ne by congruence. reflexivity.
Qed.

(** A file that was just given its newline is not fixable any more. *)
Lemma fixable_fixed fs q data m :
  fixable (<[q := mkFile (data ++ [x0a]) m]> fs) q = false.
Proof.
  unfold fixable, missingNewline. rewrite lookup_insert_eq. cbn [content].
  rewrite endsWithLF_snoc. cbn [negb]. rewrite andb_false_r. reflexivity.
Qed.

Lemma fixable_lookup fs p : fixable fs p = true -> exists f, fs !! p = Some f.
Proof.
  unfold fixable. destruct (fs !! p) as [f|]; [eauto | discriminate].
Qed.

Lemma checked_cons repoPath e rest :
  checked repoPath (e :: rest) =
  match we_err e with
  | Some _ => []
  | None => if isChecked repoPath e then e :: checked repoPath rest
            else checked repoPath rest
  end.
Proof.
  unfold checked. cbn [visited]. destruct (we_err e); reflexivity.
Qed.

(** One visit in fix mode: a checked, fixable file gets its newline and
    is counted as fixed; in every other case no file changes and the
    counter of fixed files stays. *)
Lemma walkFn_fix repoPath e st w :
  we_err e = None ->
  exists st' w',
    walkFn repoPath true (we_path e) (we_info e) (we_err e) st w = (None, st', w')
    /\ (if isChecked repoPath e && fixable (files w) (we_path e)
        then exists f, files w !! we_path e = Some f
               /\ files w' = <[we_path e := mkFile (content f ++ [x0a]) (mode f)]> (files w)
               /\ fixedFiles st' = int_incr (fixedFiles st)
        else files w' = files w /\ fixedFiles st' = fixedFiles st).
Proof.
  intros Herr. unfold walkFn, isChecked. rewrite Herr.
  destruct (IsDir (we_info e)).
  { exists st, w. cbn [negb andb]. auto. }
  destruct (shouldSkipFile (relPathOf repoPath (we_path e))).
  { eexists _, w. cbn [negb andb]. split; [reflexivity|]. auto. }
  cbn [negb andb].
  destruct (fixable (files w) (we_path e)) eqn:Hfix.
  - destruct (fixable_lookup _ _ Hfix) as [f Hf].
    rewrite (checkAndFixFile_fixable _ _ _ Hf Hfix). cbn [negb].
    eexists _, _. split; [reflexivity|]. exists f. auto.
  - destruct (checkAndFixFile_not_fixable _ _ Hfix) as [Hfiles Hres].
    destruct (checkAndFixFile (we_path e) true w) as [[[] [err|]] w1];
      cbn [fst snd negb] in *;
      try (eexists _, _; split; [reflexivity|]; auto).
    congruence.
Qed.

(** After a walk in fix mode no checked file is fixable, and a file
    that was not fixable before is not fixable after. *)
Lemma walk_fix_settles repoPath entries : forall st w,
  let w' := run_world (filepath_Walk entries (walkFn repoPath true) st w) in
  (forall q, fixable (files w) q = false -> fixable (files w') q = false)
  /\ (forall e, In e (checked repoPath entries) -> fixable (files w') (we_path e) = false).
Proof.
  induction entries as [|e rest IH]; intros st w.
  - cbn. split; [auto | intros e []].
  - cbn zeta. rewrite checked_cons.
    destruct (we_err e) as [err|] eqn:Herr.
    + cbn [filepath_Walk]. unfold walkFn. rewrite Herr. cbn.
      split; [auto | intros e' []].
    + destruct (walkFn_fix repoPath e st w Herr) as (st' & w' & Hstep & Hcase).
      cbn [filepath_Walk]. rewrite Hstep.
      destruct (IH st' w') as [IHmono IHset]. cbn zeta in IHmono, IHset.
      assert (Hmono : forall q, fixable (files w) q = false -> fixable (files w') q = false).
      { intros q Hq.
        destruct (isChecked repoPath e && fixable (files w) (we_path e)).
        - destruct Hcase as (f & Hf & Hfiles & _). rewrite Hfiles.
          destruct (decide (q = we_path e)) as [->|Hne];
            [apply fixable_fixed | rewrite fixable_insert_ne by exact Hne; exact Hq].
        - destruct Hcase as [Hfiles _]. rewrite Hfiles. exact Hq. }
      split; [intros q Hq; apply IHmono, Hmono, Hq|].
      intros e' Hin. destruct (isChecked repoPath e) eqn:Hchk; [|apply IHset, Hin].
      destruct Hin as [<-|Hin]; [|apply IHset, Hin].
      apply IHmono. cbn [andb] in Hcase.
      destruct (fixable (files w) (we_path e)) eqn:Hfix.
      * destruct Hcase as (f & Hf & Hfiles & _). rewrite Hfiles. apply fixable_fixed.
      * destruct Hcase as [Hfiles _]. rewrite Hfiles. exact Hfix.
Qed.

(** A walk in fix mode over a tree whose checked files are not fixable
    changes no file and fixes none. *)
Lemma walk_fix_settled repoPath entries : forall st w,
  (forall e, In e (checked repoPath entries) -> fixable (files w) (we_path e) = false) ->
  let r := filepath_Walk entries (walkFn repoPath true) st w in
  files (run_world r) = files w /\ fixedFiles (run_stats r) = fixedFiles st.
Proof.
  induction entries as [|e rest IH]; intros st w Hset.
  - cbn. auto.
  - cbn zeta. rewrite checked_cons in Hset.
    destruct (we_err e) as [err|] eqn:Herr.
    + cbn [filepath_Walk]. unfold walkFn. rewrite Herr. cbn. auto.
    + destruct (walkFn_fix repoPath e st w Herr) as (st' & w' & Hstep & Hcase).
      cbn [filepath_Walk]. rewrite Hstep.
      assert (Hno : isChecked repoPath e && fixable (files w) (we_path e) = false).
      { destruct (isChecked repoPath e); [|reflexivity]. cbn [andb].
        apply Hset. left. reflexivity. }
      rewrite Hno in Hcase. destruct Hcase as [Hfiles Hfixed].
      destruct (IH st' w') as [IHf IHc].
      { intros e' Hin. rewrite Hfiles. apply Hset.
        destruct (isChecked repoPath e); [right|]; exact Hin. }
      cbn zeta in IHf, IHc. rewrite IHf, IHc, Hfiles, Hfixed. auto.
Qed.

(** C4: a second run of fix mode on the tree the first run left behind
    fixes no file, and changes none. *)
Theorem fix_mode_idempotent (tree : list WalkEntry) (repoPath : string) (w : World) :
  fixedFiles
    (run_stats
       (processRepository tree repoPath true
          (run_world (processRepository tree repoPath true w)))) = 0
  /\ files
       (run_world
          (processRepository tree repoPath true
             (run_world (processRepository tree repoPath true w))))
     = files (run_world (processRepository tree repoPath true w)).
Proof.
  set (w1 := run_world (processRepository tree repoPath true w)).
  assert (Hset : forall e, In e (checked repoPath tree) ->
                           fixable (files w1) (we_path e) = false).
  { subst w1. destruct (processRepository_files tree repoPath true w) as [-> _].
    apply (walk_fix_settles repoPath tree (mkStats 0 0 0 []) w). }
  destruct (processRepository_files tree repoPath true w1) as [-> _].
  rewrite processRepository_stats.
  destruct (walk_fix_settled repoPath tree (mkStats 0 0 0 []) w1 Hset) as [Hf Hc].
  auto.
Qed.

(** The file system a walk in fix mode leaves behind: every checked,
    fixable file has got its newline, and every other path is as before. *)
Lemma walk_fix_files repoPath entries : forall st w p,
  files (run_world (filepath_Walk entries (walkFn repoPath true) st w)) !! p =
  if existsb (fun e => String.eqb (we_path e) p) (checked repoPath entries)
     && fixable (files w) p
  then fixFile <$> files w !! p
  else files w !! p.
Proof.
  induction entries as [|e rest IH]; intros st w p.
  - reflexivity.
  - rewrite checked_cons.
    destruct (we_err e) as [err|] eqn:Herr.
    + cbn [filepath_Walk]. unfold walkFn. rewrite Herr. reflexivity.
    + destruct (walkFn_fix repoPath e st w Herr) as (st' & w' & Hstep & Hcase).
      cbn [filepath_Walk]. rewrite Hstep, IH.
      destruct (isChecked repoPath e) eqn:Hchk; cbn [andb] in Hcase.
      * cbn [existsb].
        destruct (fixable (files w) (we_path e)) eqn:Hfix.
        -- destruct Hcase as (f & Hf & Hfiles & _). rewrite Hfiles.
           destruct (String.eqb_spec (we_path e) p) as [<-|Hne].
           ++ rewrite fixable_fixed, andb_false_r, lookup_insert_eq, Hfix, Hf.
              reflexivity.
           ++ rewrite fixable_insert_ne by congruence.
              rewrite lookup_insert_ne by exact Hne. reflexivity.
        -- destruct Hcase as [Hfiles _]. rewrite Hfiles.
           destruct (String.eqb_spec (we_path e) p) as [<-|Hne]; [|reflexivity].
           rewrite Hfix, !andb_false_r. reflexivity.
      * destruct Hcase as [Hfiles _]. rewrite Hfiles. reflexivity.
Qed.

(** One run of fix mode appends the newline to every checked file that
    misses it and that the process can write. *)
Lemma fix_run_appends_newline tree repoPath w e f :
  In e (checked repoPath tree) ->
  files w !! we_path e = Some f ->
  fixable (files w) (we_path e) = true ->
  files (run_world (processRepository tree repoPath true w)) !! we_path e
  = Some (mkFile (content f ++ [x0a]) (mode f)).
Proof.
  intros Hin Hf Hfix.
  destruct (processRepository_files tree repoPath true w) as [-> _].
  rewrite walk_fix_files, Hfix, Hf, andb_true_r.
  assert (Hex : existsb (fun e' => String.eqb (we_path e') (we_path e))
                        (checked repoPath tree) = true).
  { apply existsb_exists. exists e. split; [exact Hin | apply String.eqb_refl]. }
  rewrite Hex. reflexivity.
Qed.

End Traversal.

(* ===================================================================== *)
(** * Part V: the properties at concrete inputs                           *)
(* ===================================================================== *)

(** ** The classifier *)

(** Three bytes 0x01 among ten: exactly 30%, classified as text. *)
Lemma isBinary_thirty_percent_witness :
  thirty_percent <> [] /\ ~ In x00 thirty_percent
  /\ len thirty_percent <= maxBuffer
  /\ 10 * spec_count thirty_percent = 3 * len thirty_percent
  /\ isBinary thirty_percent = false.
Proof.
  assert (H1 : thirty_percent <> []) by discriminate.
  assert (H2 : ~ In x00 thirty_percent).
  { intros Hin. cbn in Hin.
    repeat (destruct Hin as [Hin|Hin]; [discriminate Hin|]). exact Hin. }
  assert (H3 : len thirty_percent <= maxBuffer) by (vm_compute; discriminate).
  assert (H4 : 10 * spec_count thirty_percent = 3 * len thirty_percent)
    by (vm_compute; reflexivity).
  exact (conj H1 (conj H2 (conj H3 (conj H4
           (proj2 (isBinary_thirty_percent thirty_percent H1 H2 H3) H4))))).
Defined.

(** Four bytes 0x01 among ten: 40%, classified as binary. *)
Example isBinary_forty_percent :
  isBinary ([x01; x01; x01; x01] ++ list_byte_of_string "abcdef") = true.
Proof. vm_compute. reflexivity. Qed.

(** The file "0x00 0x01 0x02" of the specification. *)
Lemma isBinary_null_byte_witness :
  In x00 [x00; x01; x02] /\ isBinary [x00; x01; x02] = true.
Proof.
  assert (Hin : In x00 [x00; x01; x02]) by (left; reflexivity).
  exact (conj Hin (isBinary_null_byte [x00; x01; x02] Hin)).
Defined.

(** "hello" and "hello\\n" are both text. *)
Lemma isBinary_append_newline_witness :
  hello <> [] /\ len hello < maxBuffer /\ isBinary hello = false
  /\ isBinary (hello ++ [x0a]) = false.
Proof.
  assert (H1 : hello <> []) by discriminate.
  assert (H2 : len hello < maxBuffer) by (vm_compute; reflexivity).
  assert (H3 : isBinary hello = false) by (vm_compute; reflexivity).
  exact (conj H1 (conj H2 (conj H3 (isBinary_append_newline hello H1 H2 H3)))).
Defined.

Example isBinary_empty : isBinary [] = false.
Proof. reflexivity. Qed.

(** ** The path filter *)

(** The current-directory segment does not hide a file, and a file
    without a listed extension is kept. *)
Example shouldSkipFile_kept :
  shouldSkipFile (H := linux) "./src/main.go" = false
  /\ shouldSkipFile (H := linux) "Makefile" = false.
Proof. split; reflexivity. Qed.

(** ** The fix step and the walk *)

(** The unreadable [repo/a.txt]: the walk goes on with the total at 1. *)
Lemma read_failure_counted_in_total_witness :
  os_ReadFile "repo/a.txt" world_unreadable = inr "open repo/a.txt: permission denied"%string
  /\ filepath_Walk [fileEntry "repo/a.txt"] (walkFn (H := linux) "repo" false)
       (mkStats 0 0 0 []) world_unreadable
     = filepath_Walk [] (walkFn (H := linux) "repo" false)
         (mkStats (int_incr 0) 0 0 [])
         (mkWorld (files world_unreadable) []
            ["Error processing " +:+ relPathOf (H := linux) "repo" "repo/a.txt"
             +:+ ": " +:+ ("failed to read file: "
                           +:+ "open repo/a.txt: permission denied") +:+ nl]).
Proof.
  assert (H1 : os_ReadFile "repo/a.txt" world_unreadable
               = inr "open repo/a.txt: permission denied"%string)
    by (vm_compute; reflexivity).
  exact (conj H1
           (read_failure_counted_in_total (H := linux) "repo" false
              (fileEntry "repo/a.txt") [] (mkStats 0 0 0 []) world_unreadable
              "open repo/a.txt: permission denied"
              eq_refl eq_refl eq_refl H1)).
Defined.

(** C1 as the specification states it fails: the only regular file of the
    tree cannot be read, and the total of checked files is 1, not 0. *)
Lemma read_failure_not_excluded_from_total :
  os_ReadFile "repo/a.txt" world_unreadable = inr "open repo/a.txt: permission denied"%string
  /\ regularFiles tree_a = [fileEntry "repo/a.txt"]
  /\ totalFiles (run_stats (processRepository (H := linux) tree_a "repo" false
                              world_unreadable)) = 1
  /\ totalFiles (run_stats (processRepository (H := linux) tree_a "repo" false
                              world_unreadable)) <> 0.
Proof. vm_compute. repeat split; discriminate. Qed.

(** The buckets of the two-file tree of the specification. *)
Lemma every_file_in_one_bucket_witness :
  len tree_ab < 2 ^ 63
  /\ skippedFiles (run_stats (processRepository (H := linux) tree_ab "repo" true world_ab))
     + totalFiles (run_stats (processRepository (H := linux) tree_ab "repo" true world_ab))
     = len (regularFiles tree_ab).
Proof.
  assert (H1 : len tree_ab < 2 ^ 63) by (vm_compute; reflexivity).
  exact (conj H1
           (proj1 (proj2 (every_file_in_one_bucket (H := linux) tree_ab "repo" true
                            world_ab H1)))).
Defined.

(** C2 as the specification states it fails: with an unreadable file the
    total of checked files is 1 while fine + fixed + missing is 0. *)
Lemma total_is_not_fine_fixed_missing :
  totalFiles (run_stats (processRepository (H := linux) tree_a "repo" false
                           world_unreadable)) = 1
  /\ countB BFine (buckets (H := linux) "repo" false tree_a (mkStats 0 0 0 []) world_unreadable)
     + countB BFixed (buckets (H := linux) "repo" false tree_a (mkStats 0 0 0 []) world_unreadable)
     + countB BMissing (buckets (H := linux) "repo" false tree_a (mkStats 0 0 0 []) world_unreadable)
     = 0
  /\ totalFiles (run_stats (processRepository (H := linux) tree_a "repo" false
                              world_unreadable))
     <> countB BFine (buckets (H := linux) "repo" false tree_a (mkStats 0 0 0 []) world_unreadable)
        + countB BFixed (buckets (H := linux) "repo" false tree_a (mkStats 0 0 0 []) world_unreadable)
        + countB BMissing (buckets (H := linux) "repo" false tree_a (mkStats 0 0 0 []) world_unreadable).
Proof. vm_compute. repeat split; discriminate. Qed.

(** The scenario of the specification: check mode lists [a.txt], fix mode
    fixes it, and a second fix run finds nothing to fix. *)
Example scenario_check :
  run_stats (processRepository (H := linux) tree_ab "repo" false world_ab)
  = mkStats 2 0 0 ["a.txt"%string].
Proof. vm_compute. reflexivity. Qed.

Example scenario_fix :
  run_stats (processRepository (H := linux) tree_ab "repo" true world_ab)
  = mkStats 2 1 0 []
  /\ files (run_world (processRepository (H := linux) tree_ab "repo" true world_ab))
     !! "repo/a.txt"%string = Some (mkFile (hello ++ [x0a]) 420).
Proof. vm_compute. split; reflexivity. Qed.

(* ===================================================================== *)
(** * Part VI: further properties of the code                             *)
(* ===================================================================== *)

(** ** The repository's own test tables hold in the embedding *)

Example TestIsBinary_passes :
  forallb (fun c => Bool.eqb (isBinary (fst c)) (snd c)) TestIsBinary_table = true.
Proof. vm_compute. reflexivity. Qed.

Example TestShouldSkipFile_passes :
  forallb (fun c => Bool.eqb (shouldSkipFile (H := linux) (fst c)) (snd c))
          TestShouldSkipFile_table = true.
Proof. vm_compute. reflexivity. Qed.

Example TestCheckAndFixFile_passes :
  forallb runCheckAndFixFileCase TestCheckAndFixFile_table = true.
Proof. vm_compute. reflexivity. Qed.

(** ** The classifier *)

(** Zero divided by anything is not above 0.3, whatever the divisor
    rounds to. *)
Lemma gt_div_zero y :
  Float64.gt (Float64.div (Float64.of_int 0) y) Float64.c0_3 = false.
Proof. destruct y as [[]|[]| |[] m e]; reflexivity. Qed.

Lemma count_loop_printable data : forall acc,
  (forall b, In b data -> isNonPrintable b = false) ->
  fold_left (fun nonPrintable b =>
               if isNonPrintable b then int_incr nonPrintable else nonPrintable)
            data acc = acc.
Proof.
  induction data as [|b data IH]; intros acc Hall; [reflexivity|].
  cbn [fold_left]. rewrite (Hall b) by (left; reflexivity).
  apply IH. intros b' Hb'. apply Hall. right. exact Hb'.
Qed.

Lemma hasNullByte_printable data :
  (forall b, In b data -> isNonPrintable b = false) -> hasNullByte data = false.
Proof.
  intros Hall. destruct (hasNullByte data) eqn:E; [|reflexivity].
  apply hasNullByte_In, Hall in E. discriminate E.
Qed.

(** X1: a buffer without any byte below 0x20 other than newline, carriage
    return and tab is classified as text, whatever its length. *)
Theorem isBinary_printable_text (data : list byte) :
  (forall b, In b data -> isNonPrintable b = false) ->
  isBinary data = false.
Proof.
  intros Hall. unfold isBinary.
  destruct (len data =? 0); [reflexivity|].
  rewrite (hasNullByte_printable data Hall).
  unfold countNonPrintable. rewrite (count_loop_printable data 0 Hall).
  apply gt_div_zero.
Qed.

(** The loop counter is [int_incr] iterated once per counted byte. *)
Lemma count_loop_iter data : forall acc,
  fold_left (fun nonPrintable b =>
               if isNonPrintable b then int_incr nonPrintable else nonPrintable)
            data acc
  = Nat.iter (nonPrintableNat data) int_incr acc.
Proof.
  induction data as [|b data IH]; intros acc; [reflexivity|].
  cbn [fold_left]. unfold nonPrintableNat. cbn [List.filter].
  destruct (isNonPrintable b).
  - cbn [length]. rewrite Nat.iter_succ_r. apply IH.
  - apply IH.
Qed.

Lemma nonPrintableNat_Permutation data data' :
  Permutation data data' -> nonPrintableNat data = nonPrintableNat data'.
Proof.
  unfold nonPrintableNat.
  induction 1 as [|x l l' _ IH|x y l|l l' l'' _ IH1 _ IH2].
  - reflexivity.
  - cbn [List.filter]. destruct (isNonPrintable x); cbn [length]; congruence.
  - cbn [List.filter].
    destruct (isNonPrintable x), (isNonPrintable y); reflexivity.
  - congruence.
Qed.

Lemma hasNullByte_Permutation data data' :
  Permutation data data' -> hasNullByte data = hasNullByte data'.
Proof.
  intros Hp.
  destruct (hasNullByte data) eqn:E, (hasNullByte data') eqn:E'; try reflexivity.
  - apply hasNullByte_In in E. apply (Permutation_in _ Hp), hasNullByte_In in E.
    congruence.
  - apply hasNullByte_In in E'.
    apply (Permutation_in _ (Permutation_sym Hp)), hasNullByte_In in E'.
    congruence.
Qed.

(** X2: the answer of the classifier does not depend on the order of the
    bytes. *)
Theorem isBinary_Permutation (data data' : list byte) :
  Permutation data data' -> isBinary data = isBinary data'.
Proof.
  intros Hp. unfold isBinary, countNonPrintable, len.
  rewrite !count_loop_iter.
  rewrite (Permutation_length Hp), (hasNullByte_Permutation _ _ Hp),
          (nonPrintableNat_Permutation _ _ Hp).
  reflexivity.
Qed.

Lemma spec_count_printable extra :
  (forall x, In x extra -> isNonPrintable x = false) -> spec_count extra = 0.
Proof.
  induction extra as [|x extra IH]; intros Hall; [apply spec_count_nil|].
  rewrite spec_count_cons, <- isNonPrintable_spec, (Hall x) by (left; reflexivity).
  rewrite IH; [reflexivity|]. intros y Hy. apply Hall. right. exact Hy.
Qed.

Lemma spec_count_nonprintable extra :
  (forall x, In x extra -> isNonPrintable x = true) -> spec_count extra = len extra.
Proof.
  induction extra as [|x extra IH]; intros Hall; [reflexivity|].
  rewrite spec_count_cons, <- isNonPrintable_spec, (Hall x) by (left; reflexivity).
  rewrite IH by (intros y Hy; apply Hall; right; exact Hy).
  unfold len. cbn [length]. lia.
Qed.

(** X3: text stays text when bytes that are not counted (0x20 and above,
    newline, carriage return, tab) are appended. *)
Theorem isBinary_append_printable (b extra : list byte) :
  isBinary b = false ->
  (forall x, In x extra -> isNonPrintable x = false) ->
  len (b ++ extra) <= maxBuffer ->
  isBinary (b ++ extra) = false.
Proof.
  intros Htext Hall Hlen.
  destruct (b ++ extra) as [|y rest] eqn:Eapp; [reflexivity|].
  assert (Hne : b ++ extra <> []) by (rewrite Eapp; discriminate).
  rewrite <- Eapp in *. clear Eapp y rest.
  assert (Hnb : hasNullByte b = false).
  { destruct (hasNullByte b) eqn:E; [|reflexivity].
    apply isBinary_hasNullByte in E. congruence. }
  assert (Hn : hasNullByte (b ++ extra) = false).
  { rewrite hasNullByte_app, Hnb, (hasNullByte_printable extra Hall). reflexivity. }
  apply not_true_is_false. rewrite (isBinary_no_null _ Hne Hn Hlen).
  rewrite spec_count_app, len_app, (spec_count_printable extra Hall).
  rewrite len_app in Hlen.
  pose proof (spec_count_bounds b) as Hb.
  assert (0 <= len extra) by (unfold len; lia).
  destruct b as [|y b'].
  - rewrite spec_count_nil. unfold len at 1. cbn [length]. lia.
  - assert (Hb' : ~ 3 * len (y :: b') < 10 * spec_count (y :: b')).
    { rewrite <- (isBinary_no_null (y :: b') ltac:(discriminate) Hnb ltac:(lia)).
      congruence. }
    lia.
Qed.

(** X4: binary stays binary when counted bytes (below 0x20, other than
    newline, carriage return and tab) are appended. *)
Theorem isBinary_append_nonprintable (b extra : list byte) :
  isBinary b = true ->
  (forall x, In x extra -> isNonPrintable x = true) ->
  len (b ++ extra) <= maxBuffer ->
  isBinary (b ++ extra) = true.
Proof.
  intros Hbin Hall Hlen.
  assert (Hb : b <> []) by (intros ->; discriminate Hbin).
  assert (Hne : b ++ extra <> []) by (destruct b; [congruence | discriminate]).
  destruct (hasNullByte (b ++ extra)) eqn:Hn; [apply isBinary_hasNullByte, Hn|].
  assert (Hnb : hasNullByte b = false).
  { rewrite hasNullByte_app in Hn. apply orb_false_elim in Hn. tauto. }
  rewrite (isBinary_no_null _ Hne Hn Hlen).
  rewrite len_app in Hlen.
  assert (0 <= len extra) by (unfold len; lia).
  rewrite (isBinary_no_null b Hb Hnb ltac:(lia)) in Hbin.
  rewrite spec_count_app, len_app, (spec_count_nonprintable extra Hall). lia.
Qed.

(** ** The path filter *)

Section PathFilterMore.
Context `{Platform}.

Lemma isHiddenPart_iff part :
  isHiddenPart part = true
  <-> exists rest, part = String "." rest /\ rest <> EmptyString.
Proof.
  unfold isHiddenPart, HasPrefix. split.
  - intros Hh. destruct part as [|c r]; [discriminate Hh|].
    cbn [String.prefix] in Hh. destruct (ascii_dec "." c) as [<-|]; [|discriminate Hh].
    exists r. split; [reflexivity|]. intros ->. discriminate Hh.
  - intros (rest & -> & Hne). destruct rest; [congruence | reflexivity].
Qed.

Lemma existsb_hidden_iff parts :
  existsb isHiddenPart parts = true
  <-> exists rest, In (String "." rest) parts /\ rest <> EmptyString.
Proof.
  rewrite existsb_exists. split.
  - intros (part & Hin & Hh). apply isHiddenPart_iff in Hh as (rest & -> & Hne). eauto.
  - intros (rest & Hin & Hne). exists (String "." rest).
    split; [exact Hin|]. apply isHiddenPart_iff. eauto.
Qed.

Lemma existsb_ext_iff ext :
  existsb (fun binExt => String.eqb ext binExt) binaryExts = true <-> In ext binaryExts.
Proof.
  rewrite existsb_exists. split.
  - intros (x & Hin & Heq). apply String.eqb_eq in Heq. congruence.
  - intros Hin. exists ext. split; [exact Hin | apply String.eqb_refl].
Qed.

(** *** Hidden names, read on the path itself *)

Lemma Split_app_sep a t sep :
  Split (a +:+ String sep t) sep = Split a sep ++ Split t sep.
Proof.
  induction a as [|c a IH].
  { change (EmptyString +:+ String sep t) with (String sep t).
    cbn [Split app]. rewrite Ascii.eqb_refl. reflexivity. }
  change (String c a +:+ String sep t) with (String c (a +:+ String sep t)).
  cbn [Split]. rewrite IH.
  destruct (Ascii.eqb c sep); [reflexivity|].
  pose proof (Split_nonempty a sep) as Hn.
  destruct (Split a sep) as [|p ps]; [congruence | reflexivity].
Qed.

Lemma Split_head c b sep :
  Ascii.eqb c sep = false ->
  exists p ps, Split (String c b) sep = String c p :: ps.
Proof.
  intros Hc. cbn [Split]. rewrite Hc.
  destruct (Split b sep) as [|p ps]; eauto.
Qed.

Lemma ReplaceAll_app x y old new :
  ReplaceAll (x +:+ y) old new = ReplaceAll x old new +:+ ReplaceAll y old new.
Proof.
  induction x as [|c x IH]; [reflexivity|].
  change (String c x +:+ y) with (String c (x +:+ y)).
  cbn [ReplaceAll]. rewrite IH. reflexivity.
Qed.

Lemma ToSlash_app x y : ToSlash (x +:+ y) = ToSlash x +:+ ToSlash y.
Proof.
  unfold ToSlash. destruct (Ascii.eqb Separator "/"); [reflexivity|].
  apply ReplaceAll_app.
Qed.

Lemma ToSlash_separator s :
  IsPathSeparator s = true -> ToSlash (String s EmptyString) = "/"%string.
Proof.
  unfold IsPathSeparator, ToSlash, Separator. destruct goos; cbn.
  - intros Hs. apply Ascii.eqb_eq in Hs. congruence.
  - intros Hs. apply orb_prop in Hs as [Hs|Hs]; apply Ascii.eqb_eq in Hs; subst s;
      reflexivity.
Qed.

Lemma ToSlash_cons c b :
  IsPathSeparator c = false ->
  ToSlash (String c b) = String c (ToSlash b) /\ Ascii.eqb c "/" = false.
Proof.
  unfold IsPathSeparator, ToSlash, Separator. destruct goos; cbn.
  - intros Hc. auto.
  - intros Hc. apply orb_false_elim in Hc as [Hb Hs]. rewrite Hb. auto.
Qed.

Lemma IsPathSeparator_dot : IsPathSeparator "." = false.
Proof. unfold IsPathSeparator. destruct goos; reflexivity. Qed.

(** X6: a path in which a name starts with a dot followed by a byte that
    is not a separator is skipped: the dot stands at the start of the
    path or right after a separator.  This covers hidden files, hidden
    directories and the parent-directory segment "..". *)
Theorem shouldSkipFile_dot_name (a b : string) (c : ascii) :
  IsPathSeparator c = false ->
  a = EmptyString
  \/ (exists a0 s, a = a0 +:+ String s EmptyString /\ IsPathSeparator s = true) ->
  shouldSkipFile (a +:+ String "." (String c b)) = true.
Proof.
  intros Hc Ha.
  destruct (ToSlash_cons c b Hc) as [Ec Hcs].
  destruct (ToSlash_cons "." (String c b) IsPathSeparator_dot) as [Ed _].
  rewrite Ec in Ed.
  destruct (Split_head c (ToSlash b) "/" Hcs) as (p & ps & Ep).
  assert (Hname : Split (String "." (String c (ToSlash b))) "/"
                  = String "." (String c p) :: ps).
  { cbn [Split]. change (Ascii.eqb "." "/") with false. cbv iota.
    cbn [Split] in Ep. rewrite Ep. reflexivity. }
  assert (Hin : In (String "." (String c p))
                   (Split (ToSlash (a +:+ String "." (String c b))) "/")).
  { rewrite ToSlash_app, Ed.
    destruct Ha as [->|(a0 & s & -> & Hs)].
    - assert (Hnil : ToSlash EmptyString = EmptyString).
      { unfold ToSlash. destruct (Ascii.eqb Separator "/"); reflexivity. }
      rewrite Hnil.
      change (EmptyString +:+ String "." (String c (ToSlash b)))
        with (String "." (String c (ToSlash b))).
      rewrite Hname. left. reflexivity.
    - rewrite ToSlash_app, (ToSlash_separator s Hs), append_assoc.
      change ("/" +:+ String "." (String c (ToSlash b)))%string
        with (String "/" (String "." (String c (ToSlash b)))).
      rewrite Split_app_sep, Hname. apply in_or_app. right. left. reflexivity. }
  unfold shouldSkipFile.
  assert (Hex : existsb isHiddenPart
                  (Split (ToSlash (a +:+ String "." (String c b))) "/") = true).
  { apply existsb_hidden_iff. exists (String c p). split; [exact Hin | discriminate]. }
  rewrite Hex. reflexivity.
Qed.

(** *** Segments, read on the path itself *)

Lemma ToSlash_nil : ToSlash EmptyString = EmptyString.
Proof. unfold ToSlash. destruct (Ascii.eqb Separator "/"); reflexivity. Qed.

(** A string without separators is left as it is by [ToSlash] and holds
    no forward slash. *)
Lemma ToSlash_plain s :
  forallb (fun c => negb (IsPathSeparator c)) (list_ascii_of_string s) = true ->
  ToSlash s = s
  /\ forallb (fun c => negb (Ascii.eqb c "/")) (list_ascii_of_string s) = true.
Proof.
  induction s as [|c s IH]; intros Hs.
  - split; [apply ToSlash_nil | reflexivity].
  - cbn [list_ascii_of_string forallb] in Hs. apply andb_prop in Hs as [Hc Hs].
    apply negb_true_iff in Hc.
    destruct (ToSlash_cons c s Hc) as [Ec Hne].
    destruct (IH Hs) as [Es Hall].
    rewrite Ec, Es. split; [reflexivity|].
    cbn [list_ascii_of_string forallb]. rewrite Hne, Hall. reflexivity.
Qed.

Lemma Split_plain s sep :
  forallb (fun c => negb (Ascii.eqb c sep)) (list_ascii_of_string s) = true ->
  Split s sep = [s].
Proof.
  induction s as [|c s IH]; intros Hs; [reflexivity|].
  cbn [list_ascii_of_string forallb] in Hs. apply andb_prop in Hs as [Hc Hs].
  apply negb_true_iff in Hc.
  cbn [Split]. rewrite Hc, (IH Hs). reflexivity.
Qed.

(** A run of bytes without the separator that stands between two
    separators, or at an end of the string, is one of the parts. *)
Lemma Split_segment x seg y sep :
  forallb (fun c => negb (Ascii.eqb c sep)) (list_ascii_of_string seg) = true ->
  x = EmptyString \/ (exists x0, x = x0 +:+ String sep EmptyString) ->
  y = EmptyString \/ (exists y0, y = String sep y0) ->
  In seg (Split (x +:+ seg +:+ y) sep).
Proof.
  intros Hseg Hx Hy.
  assert (Htail : exists ps, Split (seg +:+ y) sep = seg :: ps).
  { destruct Hy as [->|(y0 & ->)].
    - rewrite append_nil_r, (Split_plain seg sep Hseg). eauto.
    - rewrite Split_app_sep, (Split_plain seg sep Hseg). cbn [app]. eauto. }
  destruct Htail as (ps & Htail).
  destruct Hx as [->|(x0 & ->)].
  - change (EmptyString +:+ (seg +:+ y)) with (seg +:+ y).
    rewrite Htail. left. reflexivity.
  - rewrite append_assoc.
    change (String sep EmptyString +:+ (seg +:+ y)) with (String sep (seg +:+ y)).
    rewrite Split_app_sep, Htail. apply in_or_app. right. left. reflexivity.
Qed.

(** [ToSlash] of what stands before and after a segment. *)
Lemma ToSlash_before a :
  a = EmptyString
  \/ (exists a0 s, a = a0 +:+ String s EmptyString /\ IsPathSeparator s = true) ->
  ToSlash a = EmptyString \/ (exists x0, ToSlash a = x0 +:+ String "/" EmptyString).
Proof.
  intros [->|(a0 & s & -> & Hs)].
  - left. apply ToSlash_nil.
  - right. exists (ToSlash a0). rewrite ToSlash_app, (ToSlash_separator s Hs).
    reflexivity.
Qed.

Lemma ToSlash_after b :
  b = EmptyString \/ (exists s b0, b = String s b0 /\ IsPathSeparator s = true) ->
  ToSlash b = EmptyString \/ (exists y0, ToSlash b = String "/" y0).
Proof.
  intros [->|(s & b0 & -> & Hs)].
  - left. apply ToSlash_nil.
  - right. exists (ToSlash b0).
    change (String s b0) with (String s EmptyString +:+ b0).
    rewrite ToSlash_app, (ToSlash_separator s Hs). reflexivity.
Qed.

(** C6: a path with a segment that starts with '.' and is not "." is
    skipped, whatever stands before and after the segment, the extension
    of the file included.  The segment is read on the path itself: a run
    of bytes without a separator of the platform, from the start of the
    path or from a separator, up to the end of the path or to the next
    separator; after [ToSlash] and [Split] it is one of the parts. *)
Theorem shouldSkipFile_hidden_segment (a rest b : string) :
  a = EmptyString
  \/ (exists a0 s, a = a0 +:+ String s EmptyString /\ IsPathSeparator s = true) ->
  b = EmptyString
  \/ (exists s b0, b = String s b0 /\ IsPathSeparator s = true) ->
  forallb (fun c => negb (IsPathSeparator c)) (list_ascii_of_string rest) = true ->
  rest <> EmptyString ->
  In (String "." rest) (Split (ToSlash (a +:+ String "." rest +:+ b)) "/")
  /\ shouldSkipFile (a +:+ String "." rest +:+ b) = true.
Proof.
  intros Ha Hb Hrest Hne.
  assert (Hseg : forallb (fun c => negb (IsPathSeparator c))
                         (list_ascii_of_string (String "." rest)) = true).
  { cbn [list_ascii_of_string forallb]. rewrite IsPathSeparator_dot. exact Hrest. }
  destruct (ToSlash_plain _ Hseg) as [Eseg Hplain].
  assert (Hin : In (String "." rest)
                   (Split (ToSlash (a +:+ String "." rest +:+ b)) "/")).
  { rewrite !ToSlash_app, Eseg.
    apply Split_segment;
      [exact Hplain | apply ToSlash_before, Ha | apply ToSlash_after, Hb]. }
  split; [exact Hin|].
  unfold shouldSkipFile.
  assert (Hex : existsb isHiddenPart
                  (Split (ToSlash (a +:+ String "." rest +:+ b)) "/") = true).
  { apply existsb_hidden_iff. exists rest. split; [exact Hin | exact Hne]. }
  rewrite Hex. reflexivity.
Qed.

(** Conversely every part that [Split] finds after [ToSlash] is such a
    segment of the path. *)
Lemma Split_ToSlash_cons c p :
  Split (ToSlash (String c p)) "/" =
  if IsPathSeparator c then EmptyString :: Split (ToSlash p) "/"
  else match Split (ToSlash p) "/" with
       | [] => [String c EmptyString]
       | part :: parts => String c part :: parts
       end.
Proof.
  destruct (IsPathSeparator c) eqn:Hc.
  - change (String c p) with (String c EmptyString +:+ p).
    rewrite ToSlash_app, (ToSlash_separator c Hc). reflexivity.
  - destruct (ToSlash_cons c p Hc) as [-> Hne]. cbn [Split]. rewrite Hne.
    reflexivity.
Qed.

Lemma Split_ToSlash_head p :
  exists part parts b,
    Split (ToSlash p) "/" = part :: parts
    /\ p = part +:+ b
    /\ forallb (fun c => negb (IsPathSeparator c)) (list_ascii_of_string part) = true
    /\ (b = EmptyString
        \/ (exists s b0, b = String s b0 /\ IsPathSeparator s = true)).
Proof.
  induction p as [|c p IH].
  - exists EmptyString, [], EmptyString. rewrite ToSlash_nil. cbn. auto.
  - rewrite Split_ToSlash_cons. destruct (IsPathSeparator c) eqn:Hc.
    + exists EmptyString, (Split (ToSlash p) "/"), (String c p).
      repeat split. right. eauto.
    + destruct IH as (part & parts & b & -> & Hp & Hplain & Hb).
      exists (String c part), parts, b. split; [reflexivity|].
      split; [rewrite Hp at 1; reflexivity|].
      split; [|exact Hb].
      cbn [list_ascii_of_string forallb]. rewrite Hc, Hplain. reflexivity.
Qed.

Lemma Split_ToSlash_tail p : forall part parts seg,
  Split (ToSlash p) "/" = part :: parts -> In seg parts ->
  exists a0 s b,
    p = (a0 +:+ String s EmptyString) +:+ seg +:+ b
    /\ IsPathSeparator s = true
    /\ (b = EmptyString
        \/ (exists s' b0, b = String s' b0 /\ IsPathSeparator s' = true))
    /\ forallb (fun c => negb (IsPathSeparator c)) (list_ascii_of_string seg) = true.
Proof.
  induction p as [|c p IH]; intros part parts seg Hsplit Hin.
  - rewrite ToSlash_nil in Hsplit. injection Hsplit as _ <-. destruct Hin.
  - rewrite Split_ToSlash_cons in Hsplit.
    destruct (Split_ToSlash_head p) as (part' & parts' & b & Hsp & Hp & Hplain & Hb).
    assert (Hlater : In seg parts' ->
              exists a0 s b,
                String c p = (a0 +:+ String s EmptyString) +:+ seg +:+ b
                /\ IsPathSeparator s = true
                /\ (b = EmptyString
                    \/ (exists s' b0, b = String s' b0 /\ IsPathSeparator s' = true))
                /\ forallb (fun c => negb (IsPathSeparator c))
                           (list_ascii_of_string seg) = true).
    { intros Hin'.
      destruct (IH part' parts' seg Hsp Hin') as (a0 & s & b' & Hp' & Hs & Hb' & Hseg).
      exists (String c a0), s, b'. split; [rewrite Hp' at 1; reflexivity | auto]. }
    rewrite Hsp in Hsplit.
    destruct (IsPathSeparator c) eqn:Hc.
    + injection Hsplit as _ <-. destruct Hin as [<-|Hin]; [|exact (Hlater Hin)].
      exists EmptyString, c, b. split; [rewrite Hp at 1; reflexivity | auto].
    + injection Hsplit as _ <-. exact (Hlater Hin).
Qed.

Lemma Split_ToSlash_segment p seg :
  In seg (Split (ToSlash p) "/") ->
  exists a b,
    p = a +:+ seg +:+ b
    /\ (a = EmptyString
        \/ (exists a0 s, a = a0 +:+ String s EmptyString /\ IsPathSeparator s = true))
    /\ (b = EmptyString
        \/ (exists s b0, b = String s b0 /\ IsPathSeparator s = true))
    /\ forallb (fun c => negb (IsPathSeparator c)) (list_ascii_of_string seg) = true.
Proof.
  intros Hin.
  destruct (Split_ToSlash_head p) as (part & parts & b & Hsp & Hp & Hplain & Hb).
  rewrite Hsp in Hin. destruct Hin as [<-|Hin].
  - exists EmptyString, b. split; [exact Hp | auto].
  - destruct (Split_ToSlash_tail p part parts seg Hsp Hin)
      as (a0 & s & b' & Hp' & Hs & Hb' & Hseg).
    exists (a0 +:+ String s EmptyString), b'. split; [exact Hp'|].
    split; [right; eauto | auto].
Qed.

End PathFilterMore.

Section PathFilterCase.
Context `{Platform}.

Lemma lowerByte_dot c : lowerByte c = "."%char -> c = "."%char.
Proof.
  destruct c as [[] [] [] [] [] [] [] []]; cbv; intros Hc;
    first [reflexivity | discriminate Hc].
Qed.

(** Lowering a byte neither makes nor unmakes a dot or a separator. *)
Lemma plain_lowerByte c :
  negb (IsPathSeparator (lowerByte c)) && negb (Ascii.eqb (lowerByte c) ".") = true ->
  negb (IsPathSeparator c) && negb (Ascii.eqb c ".") = true.
Proof.
  unfold IsPathSeparator. destruct goos;
    destruct c as [[] [] [] [] [] [] [] []]; cbv; intros Hc;
    first [reflexivity | exact Hc].
Qed.

Lemma plain_lowerASCII s :
  forallb (fun c => negb (IsPathSeparator c) && negb (Ascii.eqb c "."))
          (list_ascii_of_string (lowerASCII s)) = true ->
  forallb (fun c => negb (IsPathSeparator c) && negb (Ascii.eqb c "."))
          (list_ascii_of_string s) = true.
Proof.
  induction s as [|c s IH]; [reflexivity|].
  cbn [lowerASCII list_ascii_of_string forallb]. intros Hs.
  apply andb_prop in Hs as [Hc Hs].
  rewrite (plain_lowerByte c Hc), (IH Hs). reflexivity.
Qed.

(** Every entry of the list is a dot followed by bytes that are neither
    dots nor separators. *)
Lemma binaryExts_shape :
  forallb (fun e => match e with
                    | EmptyString => false
                    | String c t =>
                        Ascii.eqb c "."
                        && forallb (fun c => negb (IsPathSeparator c)
                                             && negb (Ascii.eqb c "."))
                                   (list_ascii_of_string t)
                    end) binaryExts = true.
Proof. unfold IsPathSeparator. destruct goos; reflexivity. Qed.

(** X7: a path that ends with any upper/lower-case spelling of a listed
    extension is skipped, whatever stands before the extension. *)
Theorem shouldSkipFile_extension_any_case (pre ext : string) :
  isASCII ext = true ->
  In (lowerASCII ext) binaryExts ->
  shouldSkipFile (pre +:+ ext) = true.
Proof.
  intros Hascii Hin.
  pose proof binaryExts_shape as Hshape.
  rewrite forallb_forall in Hshape. specialize (Hshape _ Hin).
  destruct ext as [|c0 suf]; [discriminate Hshape|].
  cbn [lowerASCII] in Hshape.
  apply andb_prop in Hshape as [Hdot Hplain].
  apply Ascii.eqb_eq, lowerByte_dot in Hdot. subst c0.
  apply plain_lowerASCII in Hplain.
  unfold shouldSkipFile.
  destruct (existsb isHiddenPart (Split (ToSlash (pre +:+ String "." suf)) "/"));
    [reflexivity|].
  rewrite (Ext_final_dot pre suf Hplain).
  unfold ToLower. rewrite Hascii.
  rewrite (proj2 (existsb_ext_iff _) Hin). reflexivity.
Qed.

(** C7: a path whose lowercased extension is an entry of the deny-list
    is skipped.  The extension is read on the path itself: it starts at
    a dot after which neither a dot nor a separator follows, which is the
    final dot of the final segment, whatever stands before it.  It is
    lowered as [strings.ToLower] does: byte by byte when it is pure
    ASCII, so the match does not look at the case of the letters, and by
    [strings.Map] otherwise. *)
Theorem shouldSkipFile_denied_extension (pre suf : string) :
  forallb (fun c => negb (IsPathSeparator c) && negb (Ascii.eqb c "."))
          (list_ascii_of_string suf) = true ->
  In (if isASCII (String "." suf) then lowerASCII (String "." suf)
      else strings_MapToLower (String "." suf)) spec_denyList ->
  Ext (pre +:+ String "." suf) = String "." suf
  /\ shouldSkipFile (pre +:+ String "." suf) = true.
Proof.
  intros Hplain Hin.
  pose proof (Ext_final_dot pre suf Hplain) as HExt.
  split; [exact HExt|].
  unfold shouldSkipFile.
  destruct (existsb isHiddenPart (Split (ToSlash (pre +:+ String "." suf)) "/"));
    [reflexivity|].
  rewrite HExt. unfold ToLower.
  rewrite (proj2 (existsb_ext_iff _)); [reflexivity|].
  rewrite binaryExts_spec. exact Hin.
Qed.

(** Conversely every extension that [Ext] returns starts at such a dot. *)
Lemma Ext_loop_inv l : forall suffix c e,
  Ext_loop l suffix = String c e ->
  exists mid before,
    l = mid ++ "."%char :: before
    /\ forallb (fun c => negb (IsPathSeparator c) && negb (Ascii.eqb c ".")) mid = true
    /\ c = "."%char
    /\ e = string_of_list_ascii (rev mid) +:+ suffix.
Proof.
  induction l as [|c0 l IH]; intros suffix c e Hext; [discriminate Hext|].
  cbn [Ext_loop] in Hext.
  destruct (IsPathSeparator c0) eqn:Hsep; [discriminate Hext|].
  destruct (Ascii.eqb_spec c0 ".") as [->|Hne].
  - injection Hext as <- <-. exists [], l. cbn. auto.
  - destruct (IH _ _ _ Hext) as (mid & before & -> & Hmid & -> & ->).
    exists (c0 :: mid), before. split; [reflexivity|].
    split; [|split; [reflexivity|]].
    + cbn [forallb]. rewrite Hsep, Hmid.
      destruct (Ascii.eqb_spec c0 "."); [congruence | reflexivity].
    + cbn [rev]. rewrite string_of_list_ascii_app, append_assoc. reflexivity.
Qed.

Lemma Ext_inv path c e :
  Ext path = String c e ->
  c = "."%char
  /\ exists pre,
       path = pre +:+ String "." e
       /\ forallb (fun c => negb (IsPathSeparator c) && negb (Ascii.eqb c "."))
                  (list_ascii_of_string e) = true.
Proof.
  unfold Ext. intros Hext.
  destruct (Ext_loop_inv _ _ _ _ Hext) as (mid & before & Hl & Hmid & -> & ->).
  split; [reflexivity|].
  exists (string_of_list_ascii (rev before)).
  rewrite append_nil_r. split.
  - rewrite <- (string_of_list_ascii_of_string path).
    rewrite <- (rev_involutive (list_ascii_of_string path)), Hl.
    rewrite rev_app_distr. cbn [rev]. rewrite <- app_assoc. cbn [app].
    rewrite string_of_list_ascii_app. reflexivity.
  - rewrite list_ascii_of_string_of_list_ascii.
    rewrite forallb_forall in *. intros x Hx. apply Hmid, in_rev. exact Hx.
Qed.

End PathFilterCase.

(** ** One call of [checkAndFixFile], continued *)

Lemma checkAndFixFile_not_missing path w :
  missingNewline (files w) path = false ->
  checkAndFixFile path true w = checkAndFixFile path false w.
Proof.
  intros Hm.
  unfold missingNewline in Hm. unfold checkAndFixFile, os_ReadFile.
  destruct (files w !! path) as [f|]; [|reflexivity].
  destruct (ownerReadable f); [|reflexivity]. cbn [andb] in Hm.
  destruct (len (content f) =? 0); [reflexivity|].
  destruct (isBinary (content f)); [reflexivity|].
  rewrite bytes_HasSuffix_LF. cbn [negb andb] in Hm.
  apply negb_false_iff in Hm. rewrite Hm. reflexivity.
Qed.

(** X8: the flag only matters for a readable text file that misses its
    newline: on every other path (absent or unreadable file, empty file,
    binary file, file that ends with a newline) fix mode answers what
    check mode answers and leaves the world as it is. *)
Theorem checkAndFixFile_flag_irrelevant (path : string) (w : World) :
  missingNewline (files w) path = false ->
  checkAndFixFile path true w = checkAndFixFile path false w
  /\ snd (checkAndFixFile path true w) = w.
Proof.
  intros Hm. pose proof (checkAndFixFile_not_missing path w Hm) as Heq.
  split; [exact Heq|]. rewrite Heq, checkAndFixFile_check. reflexivity.
Qed.

(** X9: once [checkAndFixFile] has fixed a file, a further call on it, in
    either mode, answers "ends with newline" and changes nothing. *)
Theorem checkAndFixFile_twice (path : string) (w : World) (fix_ : bool) :
  fixable (files w) path = true ->
  checkAndFixFile path fix_ (snd (checkAndFixFile path true w))
  = ((true, None), snd (checkAndFixFile path true w)).
Proof.
  intros Hfix. destruct (fixable_lookup _ _ Hfix) as [f Hf].
  rewrite (checkAndFixFile_fixable _ _ _ Hf Hfix). cbn [snd].
  assert (Hr : ownerReadable f = true).
  { unfold fixable, missingNewline in Hfix. rewrite Hf in Hfix.
    destruct (ownerReadable f); [reflexivity | discriminate Hfix]. }
  unfold checkAndFixFile, os_ReadFile. cbn [files].
  rewrite lookup_insert_eq. unfold ownerReadable in *. cbn [mode content]. rewrite Hr.
  assert (Hlen : (len (content f ++ [x0a]) =? 0) = false).
  { apply Z.eqb_neq. rewrite len_app. unfold len. cbn [length]. lia. }
  rewrite Hlen.
  destruct (isBinary (content f ++ [x0a])); [reflexivity|].
  rewrite bytes_HasSuffix_LF, endsWithLF_snoc. reflexivity.
Qed.

(** ** The walk, continued *)

Section TraversalMore.
Context `{Platform}.

(** X10: in fix mode, when a checked file misses its newline but cannot
    be written, the failure is printed for that file, the file keeps its
    content, it is counted as checked but not as fixed, and the walk goes
    on with the next entry. *)
Theorem write_failure_reported (repoPath : string) (e : WalkEntry)
    (rest : list WalkEntry) (st : Stats) (w : World) (f : File) :
  we_err e = None -> IsDir (we_info e) = false ->
  shouldSkipFile (relPathOf repoPath (we_path e)) = false ->
  files w !! we_path e = Some f ->
  missingNewline (files w) (we_path e) = true ->
  ownerWritable f = false ->
  filepath_Walk (e :: rest) (walkFn repoPath true) st w =
  filepath_Walk rest (walkFn repoPath true)
    (mkStats (int_incr (totalFiles st)) (fixedFiles st) (skippedFiles st)
             (problematicFiles st))
    (mkWorld (files w)
             (writes w ++ [mkWriteCall (we_path e) (content f ++ [x0a]) perm_0o644])
             (stdout w ++ ["Error processing " +:+ relPathOf repoPath (we_path e)
                           +:+ ": " +:+ ("failed to write file: "
                                         +:+ ("open " +:+ we_path e
                                              +:+ ": permission denied")) +:+ nl])).
Proof.
  intros Herr Hdir Hskip Hf Hm Hw.
  unfold missingNewline in Hm. rewrite Hf in Hm.
  apply andb_prop in Hm as [Hm Hlf]. apply andb_prop in Hm as [Hm Hbin].
  apply andb_prop in Hm as [Hr Hlen].
  apply negb_true_iff in Hlf, Hbin, Hlen.
  cbn [filepath_Walk]. unfold walkFn at 1.
  rewrite Herr, Hdir, Hskip.
  unfold checkAndFixFile, os_ReadFile, os_WriteFile.
  rewrite Hf, Hr, Hlen, Hbin, bytes_HasSuffix_LF, Hlf, Hw. reflexivity.
Qed.

(** *** Errors of the walk *)

Lemma walkFn_continues repoPath fix_ e st w :
  we_err e = None ->
  exists st' w',
    walkFn repoPath fix_ (we_path e) (we_info e) (we_err e) st w = (None, st', w').
Proof.
  intros Herr. unfold walkFn. rewrite Herr.
  destruct (IsDir (we_info e)); [eauto|].
  destruct (shouldSkipFile (relPathOf repoPath (we_path e))); [eauto|].
  destruct (checkAndFixFile (we_path e) fix_ w) as [[[] [err|]] w'];
    cbn [negb]; [eauto | eauto | eauto |].
  destruct fix_; eauto.
Qed.

Lemma walk_err repoPath fix_ entries : forall st w,
  run_err (filepath_Walk entries (walkFn repoPath fix_) st w) = firstWalkError entries.
Proof.
  induction entries as [|e rest IH]; intros st w; [reflexivity|].
  cbn [filepath_Walk firstWalkError].
  destruct (we_err e) as [err|] eqn:Herr.
  - unfold walkFn. reflexivity.
  - destruct (walkFn_continues repoPath fix_ e st w Herr) as (st' & w' & Hstep).
    rewrite Herr in Hstep. rewrite Hstep. apply IH.
Qed.

(** X11: [processRepository] fails exactly when an entry of the walk
    carries an error; it then returns the first such error behind the
    prefix "failed to walk repository: " and prints no summary.  Read and
    write failures of single files never make it fail. *)
Theorem processRepository_error (tree : list WalkEntry) (repoPath : string)
    (fix_ : bool) (w : World) :
  run_err (processRepository tree repoPath fix_ w)
  = (fun err => "failed to walk repository: " +:+ err) <$> firstWalkError tree
  /\ (firstWalkError tree <> None ->
      run_world (processRepository tree repoPath fix_ w)
      = run_world (filepath_Walk tree (walkFn repoPath fix_) (mkStats 0 0 0 []) w)).
Proof.
  pose proof (walk_err repoPath fix_ tree (mkStats 0 0 0 []) w) as Herr.
  unfold processRepository.
  destruct (filepath_Walk tree (walkFn repoPath fix_) (mkStats 0 0 0 []) w)
    as [[[err|] st] w']; cbn [run_err fst] in Herr; rewrite <- Herr.
  - split; [reflexivity | intros _; reflexivity].
  - split; [reflexivity | intros Hne; congruence].
Qed.

(** *** What a run writes *)

Lemma checkAndFixFile_writes path fix_ w :
  writes (snd (checkAndFixFile path fix_ w)) = writes w
  \/ exists data,
       writes (snd (checkAndFixFile path fix_ w))
       = writes w ++ [mkWriteCall path (data ++ [x0a]) perm_0o644].
Proof.
  unfold checkAndFixFile, os_ReadFile, os_WriteFile.
  destruct (files w !! path) as [f|]; [|left; reflexivity].
  destruct (ownerReadable f); [|left; reflexivity].
  destruct (len (content f) =? 0); [left; reflexivity|].
  destruct (isBinary (content f)); [left; reflexivity|].
  destruct (negb (bytes_HasSuffix (content f) [x0a]) && fix_); [|left; reflexivity].
  right. exists (content f). destruct (ownerWritable f); reflexivity.
Qed.

Lemma walkFn_writes repoPath fix_ e st w :
  writes (snd (walkFn repoPath fix_ (we_path e) (we_info e) (we_err e) st w)) = writes w
  \/ (we_err e = None /\ isChecked repoPath e = true
      /\ exists data,
           writes (snd (walkFn repoPath fix_ (we_path e) (we_info e) (we_err e) st w))
           = writes w ++ [mkWriteCall (we_path e) (data ++ [x0a]) perm_0o644]).
Proof.
  unfold walkFn, isChecked.
  destruct (we_err e); [left; reflexivity|].
  destruct (IsDir (we_info e)); [left; reflexivity|].
  destruct (shouldSkipFile (relPathOf repoPath (we_path e))); [left; reflexivity|].
  cbn [negb andb].
  destruct (checkAndFixFile_writes (we_path e) fix_ w) as [Hw|(data & Hw)].
  - left. destruct (checkAndFixFile (we_path e) fix_ w) as [[[] [err|]] w'];
      cbn [snd negb] in *; try exact Hw. destruct fix_; exact Hw.
  - right. split; [reflexivity|]. split; [reflexivity|]. exists data.
    destruct (checkAndFixFile (we_path e) fix_ w) as [[[] [err|]] w'];
      cbn [snd negb] in *; try exact Hw. destruct fix_; exact Hw.
Qed.

Lemma walk_writes repoPath fix_ entries : forall st w,
  exists new,
    writes (run_world (filepath_Walk entries (walkFn repoPath fix_) st w))
    = writes w ++ new
    /\ Forall (fun c => wc_perm c = perm_0o644 /\ endsWithLF (wc_data c) = true
                        /\ exists e, In e (checked repoPath entries)
                                     /\ wc_name c = we_path e) new.
Proof.
  induction entries as [|e rest IH]; intros st w.
  - exists []. cbn. rewrite app_nil_r. split; [reflexivity | constructor].
  - cbn [filepath_Walk]. rewrite checked_cons.
    destruct (we_err e) as [err|] eqn:Herr.
    + unfold walkFn. exists []. cbn. rewrite app_nil_r. split; [reflexivity | constructor].
    + destruct (walkFn_continues repoPath fix_ e st w Herr) as (st' & w' & Hstep).
      pose proof (walkFn_writes repoPath fix_ e st w) as Hw.
      rewrite Herr in *. rewrite Hstep in *. cbn [snd] in Hw.
      destruct (IH st' w') as (new & Hnew & Hall).
      destruct Hw as [Hw|(_ & Hchk & data & Hw)].
      * exists new. rewrite Hnew, Hw. split; [reflexivity|].
        eapply List.Forall_impl; [|exact Hall].
        intros c (Hp & Hlf & e' & Hin & Hname). repeat split; try assumption.
        exists e'. split; [|exact Hname].
        destruct (isChecked repoPath e); [right|]; exact Hin.
      * exists (mkWriteCall (we_path e) (data ++ [x0a]) perm_0o644 :: new).
        rewrite Hnew, Hw, <- app_assoc. split; [reflexivity|].
        rewrite Hchk. constructor.
        -- cbn [wc_perm wc_data wc_name]. repeat split; [apply endsWithLF_snoc|].
           exists e. split; [left; reflexivity | reflexivity].
        -- eapply List.Forall_impl; [|exact Hall].
           intros c (Hp & Hlf & e' & Hin & Hname). repeat split; try assumption.
           exists e'. split; [right; exact Hin | exact Hname].
Qed.

(** X13: whatever the mode, every call of [os.WriteFile] a run makes
    carries permission 0644 and data that ends with 0x0A, and names a
    checked entry of the walk: the program never writes to a skipped
    path, and never writes content without a final newline. *)
Theorem every_write_ends_with_newline (tree : list WalkEntry) (repoPath : string)
    (fix_ : bool) (w : World) :
  exists new,
    writes (run_world (processRepository tree repoPath fix_ w)) = writes w ++ new
    /\ Forall (fun c => wc_perm c = perm_0o644 /\ endsWithLF (wc_data c) = true
                        /\ exists e, In e (checked repoPath tree)
                                     /\ wc_name c = we_path e) new.
Proof.
  destruct (processRepository_files tree repoPath fix_ w) as [_ ->].
  apply walk_writes.
Qed.

(** *** The rewrite of one file by a run of fix mode *)

Lemma fixable_text fs p f :
  fs !! p = Some f ->
  ownerReadable f = true -> ownerWritable f = true ->
  content f <> [] -> isBinary (content f) = false ->
  last (content f) <> Some x0a ->
  fixable fs p = true.
Proof.
  intros Hf Hr Hw Hne Hbin Hlast.
  unfold fixable, missingNewline. rewrite Hf, Hr, Hw, Hbin.
  assert (Hlen : (len (content f) =? 0) = false).
  { apply not_true_is_false. rewrite len_zero. exact Hne. }
  assert (Hlf : endsWithLF (content f) = false).
  { apply not_true_is_false. rewrite endsWithLF_last. exact Hlast. }
  rewrite Hlen, Hlf. reflexivity.
Qed.

(** A walk in fix mode that checks a fixable file calls [os.WriteFile]
    with the content of the file followed by 0x0A. *)
Lemma walk_fix_write_in repoPath entries : forall st w e f,
  In e (checked repoPath entries) ->
  files w !! we_path e = Some f ->
  fixable (files w) (we_path e) = true ->
  exists new,
    writes (run_world (filepath_Walk entries (walkFn repoPath true) st w))
    = writes w ++ new
    /\ In (mkWriteCall (we_path e) (content f ++ [x0a]) perm_0o644) new.
Proof.
  induction entries as [|e0 rest IH]; intros st w e f Hin Hf Hfix; [destruct Hin|].
  rewrite checked_cons in Hin.
  destruct (we_err e0) as [err|] eqn:Herr; [destruct Hin|].
  destruct (walkFn_fix repoPath e0 st w Herr) as (st' & w' & Hstep & Hcase).
  pose proof (walkFn_writes repoPath true e0 st w) as Hw.
  rewrite Hstep in Hw. cbn [snd] in Hw.
  cbn [filepath_Walk]. rewrite Hstep.
  destruct (isChecked repoPath e0 && String.eqb (we_path e0) (we_path e)) eqn:Hhere.
  - apply andb_prop in Hhere as [Hchk Heq]. apply String.eqb_eq in Heq.
    rewrite Hchk, Heq, Hfix in Hcase. cbn [andb] in Hcase.
    destruct Hcase as (f' & Hf' & _ & Hfixed).
    assert (f' = f) by congruence. subst f'.
    destruct Hw as [Hw|(_ & _ & data & Hw)].
    + exfalso.
      pose proof (checkAndFixFile_fixable _ _ _ Hf Hfix) as Hcall.
      unfold walkFn in Hstep. unfold isChecked in Hchk.
      rewrite Herr in Hstep. apply andb_prop in Hchk as [Hdir Hskip].
      apply negb_true_iff in Hdir, Hskip.
      rewrite Hdir, Hskip, Heq, Hcall in Hstep. cbn [negb] in Hstep.
      injection Hstep as _ <-. cbn [print writes] in Hw.
      apply (f_equal (@length _)) in Hw. rewrite length_app in Hw. cbn in Hw. lia.
    + pose proof (checkAndFixFile_fixable _ _ _ Hf Hfix) as Hcall.
      unfold walkFn in Hstep. unfold isChecked in Hchk.
      rewrite Herr in Hstep. apply andb_prop in Hchk as [Hdir Hskip].
      apply negb_true_iff in Hdir, Hskip.
      rewrite Hdir, Hskip, Heq, Hcall in Hstep. cbn [negb] in Hstep.
      destruct (walk_writes repoPath true rest st' w') as (new & Hnew & _).
      exists (mkWriteCall (we_path e) (content f ++ [x0a]) perm_0o644 :: new).
      rewrite Hnew. injection Hstep as _ <-. cbn [print writes].
      rewrite <- app_assoc. split; [reflexivity | left; reflexivity].
  - assert (Hin' : In e (checked repoPath rest)).
    { destruct (isChecked repoPath e0); [|exact Hin].
      destruct Hin as [<-|Hin]; [|exact Hin].
      cbn [andb] in Hhere. rewrite String.eqb_refl in Hhere. discriminate Hhere. }
    assert (Hfiles : files w' !! we_path e = Some f
                     /\ fixable (files w') (we_path e) = true).
    { destruct (isChecked repoPath e0 && fixable (files w) (we_path e0)) eqn:Hfx.
      - destruct Hcase as (f0 & _ & -> & _).
        apply andb_prop in Hfx as [Hchk _]. rewrite Hchk in Hhere.
        cbn [andb] in Hhere. apply String.eqb_neq in Hhere.
        rewrite lookup_insert_ne by exact Hhere.
        rewrite fixable_insert_ne by congruence. auto.
      - destruct Hcase as [-> _]. auto. }
    destruct Hfiles as [Hf' Hfix'].
    destruct (IH st' w' e f Hin' Hf' Hfix') as (new & Hnew & Hcall).
    destruct Hw as [Hw|(_ & _ & data & Hw)].
    + exists new. rewrite Hnew, Hw. auto.
    + exists (mkWriteCall (we_path e0) (data ++ [x0a]) perm_0o644 :: new).
      rewrite Hnew, Hw, <- app_assoc. split; [reflexivity | right; exact Hcall].
Qed.

(** C5, as the code has it: one run of fix mode over a tree in which a
    non-empty text file
    without a final 0x0A is visited as a regular file that passes the
    path filter, and that the process can read and write, leaves under
    that path the old content followed by exactly one 0x0A: no other byte
    is altered.  The run calls [os.WriteFile] with that content, every
    call of the run carries permission 0644, and the file keeps the mode
    it had. *)
Theorem fix_pass_appends_newline (tree : list WalkEntry) (repoPath : string)
    (w : World) (e : WalkEntry) (f : File) :
  In e (visited tree) ->
  IsDir (we_info e) = false ->
  shouldSkipFile (relPathOf repoPath (we_path e)) = false ->
  files w !! we_path e = Some f ->
  ownerReadable f = true -> ownerWritable f = true ->
  content f <> [] -> isBinary (content f) = false ->
  last (content f) <> Some x0a ->
  files (run_world (processRepository tree repoPath true w)) !! we_path e
  = Some (mkFile (content f ++ [x0a]) (mode f))
  /\ exists new,
       writes (run_world (processRepository tree repoPath true w)) = writes w ++ new
       /\ Forall (fun c => wc_perm c = 420) new
       /\ exists c, In c new /\ wc_data c = content f ++ [x0a].
Proof.
  intros Hvis Hdir Hskip Hf Hr Hw Hne Hbin Hlast.
  pose proof (fixable_text _ _ _ Hf Hr Hw Hne Hbin Hlast) as Hfix.
  assert (Hin : In e (checked repoPath tree)).
  { unfold checked. apply filter_In. split; [exact Hvis|].
    unfold isChecked. rewrite Hdir, Hskip. reflexivity. }
  split; [apply fix_run_appends_newline; assumption|].
  destruct (processRepository_files tree repoPath true w) as [_ ->].
  destruct (walk_writes repoPath true tree (mkStats 0 0 0 []) w) as (new & Hnew & Hall).
  destruct (walk_fix_write_in repoPath tree (mkStats 0 0 0 []) w e f Hin Hf Hfix)
    as (new' & Hnew' & Hcall).
  rewrite Hnew in Hnew'. apply app_inv_head in Hnew'. subst new'.
  exists new. split; [exact Hnew|]. split.
  - eapply List.Forall_impl; [|exact Hall]. intros c (Hp & _). exact Hp.
  - eexists. split; [exact Hcall | reflexivity].
Qed.

(** *** Directories *)

Lemma walk_drop_dirs repoPath fix_ entries : forall st w,
  filepath_Walk (List.filter (fun e => negb (isPlainDir e)) entries)
                (walkFn repoPath fix_) st w
  = filepath_Walk entries (walkFn repoPath fix_) st w.
Proof.
  induction entries as [|e rest IH]; intros st w; [reflexivity|].
  cbn [List.filter]. unfold isPlainDir at 1.
  destruct (IsDir (we_info e)) eqn:Hdir; cbn [andb negb].
  - destruct (we_err e) as [err|] eqn:Herr; cbn [negb].
    + cbn [filepath_Walk]. rewrite Herr. unfold walkFn. reflexivity.
    + rewrite IH. cbn [filepath_Walk]. unfold walkFn at 2. rewrite Herr, Hdir.
      reflexivity.
  - cbn [filepath_Walk].
    destruct (walkFn repoPath fix_ (we_path e) (we_info e) (we_err e) st w)
      as [[[err|] st'] w']; [reflexivity | apply IH].
Qed.

(** X14: directories are only passed through: a run over a walk from
    which the directory entries without error have been removed returns
    the same error, the same counters and the same world. *)
Theorem directories_are_inert (tree : list WalkEntry) (repoPath : string)
    (fix_ : bool) (w : World) :
  processRepository (List.filter (fun e => negb (isPlainDir e)) tree) repoPath fix_ w
  = processRepository tree repoPath fix_ w.
Proof.
  unfold processRepository. rewrite walk_drop_dirs. reflexivity.
Qed.

End TraversalMore.

(** ** Check mode and fix mode together *)

Section Modes.
Context `{Platform}.

Lemma filter_none {A} (f : A -> bool) (l : list A) :
  (forall x, In x l -> f x = false) -> List.filter f l = [].
Proof.
  induction l as [|x l IH]; intros Hall; [reflexivity|].
  cbn [List.filter]. rewrite (Hall x) by (left; reflexivity).
  apply IH. intros y Hy. apply Hall. right. exact Hy.
Qed.

(** X16: when the process can write the checked files, a check run that
    follows a fix run reports no file. *)
Theorem check_after_fix_reports_nothing (tree : list WalkEntry) (repoPath : string)
    (w : World) :
  (forall e f, In e (checked repoPath tree) ->
               files w !! we_path e = Some f -> ownerWritable f = true) ->
  problematicFiles
    (run_stats
       (processRepository tree repoPath false
          (run_world (processRepository tree repoPath true w)))) = [].
Proof.
  intros Hwr.
  set (w1 := run_world (processRepository tree repoPath true w)).
  rewrite processRepository_stats.
  destruct (walk_check repoPath tree (mkStats 0 0 0 []) w1) as (_ & _ & _ & ->).
  cbn [problematicFiles app]. unfold spec_missingList.
  rewrite filter_none; [reflexivity|].
  intros e Hin.
  assert (Hset : fixable (files w1) (we_path e) = false).
  { subst w1. destruct (processRepository_files tree repoPath true w) as [-> _].
    apply (walk_fix_settles repoPath tree (mkStats 0 0 0 []) w). exact Hin. }
  assert (Hlook : files w1 !! we_path e =
                  if existsb (fun e' => String.eqb (we_path e') (we_path e))
                             (checked repoPath tree)
                     && fixable (files w) (we_path e)
                  then fixFile <$> files w !! we_path e
                  else files w !! we_path e).
  { subst w1. destruct (processRepository_files tree repoPath true w) as [-> _].
    apply walk_fix_files. }
  unfold fixable in Hset.
  destruct (files w1 !! we_path e) as [f1|] eqn:Hf1.
  - assert (Hw1 : ownerWritable f1 = true).
    { destruct (files w !! we_path e) as [f|] eqn:Hf.
      - pose proof (Hwr e f Hin Hf) as Hwf.
        destruct (existsb _ _ && fixable (files w) (we_path e));
          cbn in Hlook; injection Hlook as ->; exact Hwf.
      - destruct (existsb _ _ && fixable (files w) (we_path e));
          cbn in Hlook; discriminate Hlook. }
    rewrite Hw1, andb_true_r in Hset. exact Hset.
  - unfold missingNewline. rewrite Hf1. reflexivity.
Qed.

(** ** [main] *)

(** X17: the exit status is 0 exactly when there is one positional
    argument, it names a directory, and no entry of the walk carries an
    error; it is 1 in every other case.  Files that miss their newline,
    or that cannot be read or written, do not change the exit status. *)
Theorem main_exit_code (progName : string) (fix_ : bool) (args : list string)
    (os_Stat : string -> FileInfo + error) (walk : string -> list WalkEntry)
    (w : World) :
  (exitCode (main progName fix_ args os_Stat walk w) = 0
   <-> exists repoPath info,
         args = [repoPath] /\ os_Stat repoPath = inl info /\ IsDir info = true
         /\ firstWalkError (walk repoPath) = None)
  /\ (exitCode (main progName fix_ args os_Stat walk w) = 0
      \/ exitCode (main progName fix_ args os_Stat walk w) = 1).
Proof.
  unfold main.
  destruct args as [|repoPath [|a2 args]].
  - cbn. split; [|right; reflexivity].
    split; [discriminate | intros (r & i & Ha & _); discriminate Ha].
  - destruct (os_Stat repoPath) as [info|err] eqn:Hstat.
    + destruct (IsDir info) eqn:Hdir; cbn [negb].
      * pose proof (walk_err repoPath fix_ (walk repoPath) (mkStats 0 0 0 []) w) as He.
        unfold processRepository.
        destruct (filepath_Walk (walk repoPath) (walkFn repoPath fix_)
                                (mkStats 0 0 0 []) w) as [[[err|] st] w'];
          cbn [run_err fst] in He; cbn [exitCode].
        -- split; [|right; reflexivity].
           split; [discriminate|]. intros (r & i & [= <-] & _ & _ & Hn). congruence.
        -- split; [|left; reflexivity].
           split; [|reflexivity]. intros _. exists repoPath, info. auto.
      * cbn [exitCode]. split; [|right; reflexivity].
        split; [discriminate|]. intros (r & i & [= <-] & Hs & Hd & _). congruence.
    + cbn [exitCode]. split; [|right; reflexivity].
      split; [discriminate|]. intros (r & i & [= <-] & Hs & _). congruence.
  - cbn. split; [|right; reflexivity].
    split; [discriminate | intros (r & i & Ha & _); discriminate Ha].
Qed.

(** X18: without [-fix] the program changes no file and never calls
    [os.WriteFile], whatever its arguments and whatever the tree holds. *)
Theorem main_check_mode_is_read_only (progName : string) (args : list string)
    (os_Stat : string -> FileInfo + error) (walk : string -> list WalkEntry)
    (w : World) :
  files (finalWorld (main progName false args os_Stat walk w)) = files w
  /\ writes (finalWorld (main progName false args os_Stat walk w)) = writes w.
Proof.
  unfold main.
  destruct args as [|repoPath [|a2 args]]; [split; reflexivity | | split; reflexivity].
  destruct (os_Stat repoPath) as [info|err]; [|split; reflexivity].
  destruct (IsDir info); cbn [negb]; [|split; reflexivity].
  destruct (processRepository_files (walk repoPath) repoPath false w) as [Hf Hw].
  destruct (walk_check repoPath (walk repoPath) (mkStats 0 0 0 []) w)
    as (Hf' & Hw' & _).
  rewrite Hf' in Hf. rewrite Hw' in Hw.
  destruct (processRepository (walk repoPath) repoPath false w) as [[[err|] st] w'];
    cbn [run_world snd finalWorld] in *; split; assumption.
Qed.

End Modes.

(** ** Further properties of whole runs *)

Section Runs.
Context `{Platform}.

(** *** The counters of checked and skipped files *)

Lemma walkFn_totals repoPath fix_ e st w :
  we_err e = None ->
  0 <= totalFiles st < 2 ^ 63 - 1 -> 0 <= skippedFiles st < 2 ^ 63 - 1 ->
  exists st' w',
    walkFn repoPath fix_ (we_path e) (we_info e) (we_err e) st w = (None, st', w')
    /\ totalFiles st' = totalFiles st + (if isChecked repoPath e then 1 else 0)
    /\ skippedFiles st' = skippedFiles st
         + ((if IsDir (we_info e) then 0 else 1)
            - (if isChecked repoPath e then 1 else 0)).
Proof.
  intros Herr Ht Hs. unfold walkFn, isChecked. rewrite Herr.
  destruct (IsDir (we_info e)); cbn [negb andb].
  { exists st, w. repeat split; lia. }
  destruct (shouldSkipFile (relPathOf repoPath (we_path e))); cbn [negb].
  { eexists _, w. split; [reflexivity|]. cbn [totalFiles skippedFiles].
    rewrite int_incr_small by lia. split; lia. }
  destruct (checkAndFixFile (we_path e) fix_ w) as [[[] [err|]] w']; cbn [negb];
    try (eexists _, _; split; [reflexivity|]; cbn [totalFiles skippedFiles];
         rewrite int_incr_small by lia; split; lia).
  destruct fix_; eexists _, _; (split; [reflexivity|]);
    cbn [totalFiles skippedFiles]; rewrite int_incr_small by lia; split; lia.
Qed.

Lemma len_checked_cons repoPath e rest :
  we_err e = None ->
  len (checked repoPath (e :: rest))
  = (if isChecked repoPath e then 1 else 0) + len (checked repoPath rest).
Proof.
  intros Herr. rewrite checked_cons, Herr.
  destruct (isChecked repoPath e); unfold len; cbn [length]; lia.
Qed.

Lemma len_checked_le repoPath entries : 0 <= len (checked repoPath entries) <= len entries.
Proof.
  induction entries as [|e rest IH]; [unfold len; cbn; lia|].
  destruct (we_err e) as [err|] eqn:Herr.
  - rewrite checked_cons, Herr. unfold len. cbn [length]. lia.
  - rewrite (len_checked_cons _ _ _ Herr). unfold len in *. cbn [length].
    destruct (isChecked repoPath e); lia.
Qed.

Lemma walk_totals repoPath fix_ entries : forall st w,
  0 <= totalFiles st -> 0 <= skippedFiles st ->
  totalFiles st + len entries < 2 ^ 63 -> skippedFiles st + len entries < 2 ^ 63 ->
  totalFiles (run_stats (filepath_Walk entries (walkFn repoPath fix_) st w))
  = totalFiles st + len (checked repoPath entries)
  /\ skippedFiles (run_stats (filepath_Walk entries (walkFn repoPath fix_) st w))
     = skippedFiles st + (len (regularFiles entries) - len (checked repoPath entries)).
Proof.
  induction entries as [|e rest IH]; intros st w Ht Hs Bt Bs.
  - unfold len. cbn. lia.
  - unfold len in Bt, Bs. cbn [length] in Bt, Bs. cbn [filepath_Walk].
    destruct (we_err e) as [err|] eqn:Herr.
    + unfold walkFn, regularFiles. rewrite checked_cons, Herr. cbn [visited].
      rewrite Herr. unfold len. cbn. lia.
    + destruct (walkFn_totals repoPath fix_ e st w Herr ltac:(lia) ltac:(lia))
        as (st' & w' & Hstep & Et & Es).
      rewrite Herr in Hstep. rewrite Hstep.
      rewrite (len_checked_cons _ _ _ Herr), (regularFiles_cons _ _ Herr).
      pose proof (len_checked_le repoPath rest) as Hle.
      assert (Hreg : 0 <= (if IsDir (we_info e) then 0 else 1)
                          - (if isChecked repoPath e then 1 else 0)).
      { unfold isChecked. destruct (IsDir (we_info e)); cbn [negb andb]; [lia|].
        destruct (shouldSkipFile _); cbn; lia. }
      assert (Hchk : 0 <= (if isChecked repoPath e then 1 else 0) <= 1)
        by (destruct (isChecked repoPath e); lia).
      assert (Hdir : 0 <= (if IsDir (we_info e) then 0 else 1) <= 1)
        by (destruct (IsDir (we_info e)); lia).
      unfold len in IH.
      destruct (IH st' w' ltac:(lia) ltac:(lia) ltac:(lia) ltac:(lia)) as [It Is].
      rewrite It, Is, Et, Es. unfold len. split; lia.
Qed.

(** X19: the two counters of the summary depend on the paths of the walk
    only: the total of checked files is the number of visited regular
    files that pass the path filter, and the skipped counter is the number
    of those that do not, whatever the files hold and with or without
    [-fix]. *)
Theorem totals_depend_on_paths_only (tree : list WalkEntry) (repoPath : string)
    (fix_ : bool) (w : World) :
  len tree < 2 ^ 63 ->
  totalFiles (run_stats (processRepository tree repoPath fix_ w))
  = len (checked repoPath tree)
  /\ skippedFiles (run_stats (processRepository tree repoPath fix_ w))
     = len (regularFiles tree) - len (checked repoPath tree).
Proof.
  intros Hlen. rewrite processRepository_stats.
  destruct (walk_totals repoPath fix_ tree (mkStats 0 0 0 []) w) as [Ht Hs];
    cbn [totalFiles skippedFiles]; try lia.
  cbn [totalFiles skippedFiles] in Ht, Hs. split; lia.
Qed.

(** *** What a run leaves alone *)

(** X20: whatever the mode, a run creates no file, deletes none and
    changes no permission; the content of a file after the run is its
    content before, or that content followed by one 0x0A. *)
Theorem run_preserves_files (tree : list WalkEntry) (repoPath : string)
    (fix_ : bool) (w : World) (p : string) :
  mode <$> files (run_world (processRepository tree repoPath fix_ w)) !! p
  = mode <$> files w !! p
  /\ (forall f', files (run_world (processRepository tree repoPath fix_ w)) !! p = Some f' ->
        exists f, files w !! p = Some f
                  /\ (content f' = content f \/ content f' = content f ++ [x0a])).
Proof.
  destruct (processRepository_files tree repoPath fix_ w) as [-> _].
  destruct fix_.
  - rewrite walk_fix_files.
    destruct (existsb _ _ && fixable (files w) p);
      destruct (files w !! p) as [f|]; cbn; split; try reflexivity;
      try (intros f' [= <-]; exists f; split; [reflexivity|]; cbn; auto);
      discriminate.
  - destruct (walk_check repoPath tree (mkStats 0 0 0 []) w) as (-> & _).
    split; [reflexivity|]. intros f' Hf'. exists f'. auto.
Qed.

(** *** Paths without a dot *)

Lemma Split_chars s sep part c :
  In part (Split s sep) -> In c (list_ascii_of_string part) ->
  In c (list_ascii_of_string s).
Proof.
  revert part. induction s as [|x s IH]; intros part Hin Hc.
  - cbn in Hin. destruct Hin as [<-|[]]. exact Hc.
  - cbn [Split] in Hin. cbn [list_ascii_of_string].
    destruct (Ascii.eqb x sep).
    + destruct Hin as [<-|Hin]; [destruct Hc|]. right. exact (IH _ Hin Hc).
    + pose proof (Split_nonempty s sep) as Hn.
      destruct (Split s sep) as [|p0 ps] eqn:E; [congruence|].
      destruct Hin as [<-|Hin].
      * cbn [list_ascii_of_string] in Hc. destruct Hc as [<-|Hc]; [left; reflexivity|].
        right. apply (IH p0); [left; reflexivity | exact Hc].
      * right. apply (IH part); [right; exact Hin | exact Hc].
Qed.

Lemma ToSlash_dot s :
  In "."%char (list_ascii_of_string (ToSlash s)) -> In "."%char (list_ascii_of_string s).
Proof.
  unfold ToSlash. destruct (Ascii.eqb Separator "/"); [auto|].
  induction s as [|x s IH]; [auto|].
  cbn [ReplaceAll list_ascii_of_string]. intros [Hx|Hin]; [|right; auto].
  destruct (Ascii.eqb x Separator); [discriminate Hx | left; exact Hx].
Qed.

Lemma Ext_loop_no_dot l : forall suffix,
  ~ In "."%char l -> Ext_loop l suffix = EmptyString.
Proof.
  induction l as [|c l IH]; intros suffix Hno; [reflexivity|].
  cbn [Ext_loop]. destruct (IsPathSeparator c); [reflexivity|].
  destruct (Ascii.eqb_spec c ".") as [->|Hne].
  - exfalso. apply Hno. left. reflexivity.
  - apply IH. intros Hin. apply Hno. right. exact Hin.
Qed.

(** X22: a path without any dot is never skipped. *)
Theorem shouldSkipFile_no_dot (path : string) :
  ~ In "."%char (list_ascii_of_string path) ->
  shouldSkipFile path = false.
Proof.
  intros Hno. unfold shouldSkipFile.
  destruct (existsb isHiddenPart (Split (ToSlash path) "/")) eqn:Eh.
  - exfalso. apply existsb_hidden_iff in Eh as (rest & Hin & _).
    apply Hno, ToSlash_dot.
    apply (Split_chars _ _ _ _ Hin). left. reflexivity.
  - unfold Ext. rewrite Ext_loop_no_dot; [reflexivity|].
    intros Hin. apply Hno. apply in_rev. exact Hin.
Qed.

End Runs.

(* ===================================================================== *)
(** * Part VII: the further properties at concrete inputs                 *)
(* ===================================================================== *)

Lemma isBinary_printable_text_witness :
  (forall b, In b (hello ++ [x0a]) -> isNonPrintable b = false)
  /\ isBinary (hello ++ [x0a]) = false.
Proof.
  assert (H1 : forall b, In b (hello ++ [x0a]) -> isNonPrintable b = false).
  { intros b Hb. cbn in Hb.
    repeat (destruct Hb as [<-|Hb]; [reflexivity|]). destruct Hb. }
  exact (conj H1 (isBinary_printable_text (hello ++ [x0a]) H1)).
Defined.

Lemma isBinary_Permutation_witness :
  Permutation [x00; x41] [x41; x00]
  /\ isBinary [x00; x41] = isBinary [x41; x00].
Proof.
  assert (H1 : Permutation [x00; x41] [x41; x00]) by apply perm_swap.
  exact (conj H1 (isBinary_Permutation [x00; x41] [x41; x00] H1)).
Defined.

Lemma isBinary_append_printable_witness :
  isBinary thirty_percent = false
  /\ (forall x, In x hello -> isNonPrintable x = false)
  /\ len (thirty_percent ++ hello) <= maxBuffer
  /\ isBinary (thirty_percent ++ hello) = false.
Proof.
  assert (H1 : isBinary thirty_percent = false) by (vm_compute; reflexivity).
  assert (H2 : forall x, In x hello -> isNonPrintable x = false).
  { intros x Hx. cbn in Hx.
    repeat (destruct Hx as [<-|Hx]; [reflexivity|]). destruct Hx. }
  assert (H3 : len (thirty_percent ++ hello) <= maxBuffer) by (vm_compute; discriminate).
  exact (conj H1 (conj H2 (conj H3
           (isBinary_append_printable thirty_percent hello H1 H2 H3)))).
Defined.

Lemma isBinary_append_nonprintable_witness :
  isBinary [x01; x02; x41] = true
  /\ (forall x, In x [x03] -> isNonPrintable x = true)
  /\ len ([x01; x02; x41] ++ [x03]) <= maxBuffer
  /\ isBinary ([x01; x02; x41] ++ [x03]) = true.
Proof.
  assert (H1 : isBinary [x01; x02; x41] = true) by (vm_compute; reflexivity).
  assert (H2 : forall x, In x [x03] -> isNonPrintable x = true).
  { intros x [<-|[]]. reflexivity. }
  assert (H3 : len ([x01; x02; x41] ++ [x03]) <= maxBuffer) by (vm_compute; discriminate).
  exact (conj H1 (conj H2 (conj H3
           (isBinary_append_nonprintable [x01; x02; x41] [x03] H1 H2 H3)))).
Defined.

(** [src/.git/config] and [../notes.txt]. *)
Lemma shouldSkipFile_dot_name_witness :
  (IsPathSeparator (H := linux) "g" = false
   /\ shouldSkipFile (H := linux) ("src/" +:+ String "." (String "g" "it/config")) = true)
  /\ (IsPathSeparator (H := linux) "." = false
      /\ shouldSkipFile (H := linux)
           (EmptyString +:+ String "." (String "." "/notes.txt")) = true).
Proof.
  assert (H1 : IsPathSeparator (H := linux) "g" = false) by reflexivity.
  assert (H2 : IsPathSeparator (H := linux) "." = false) by reflexivity.
  assert (H3 : "src/"%string = EmptyString
               \/ exists a0 s, "src/"%string = a0 +:+ String s EmptyString
                               /\ IsPathSeparator (H := linux) s = true).
  { right. exists "src"%string, "/"%char. split; reflexivity. }
  exact (conj (conj H1 (shouldSkipFile_dot_name (H := linux) "src/" "it/config" "g" H1 H3))
              (conj H2 (shouldSkipFile_dot_name (H := linux) EmptyString "/notes.txt" "."
                          H2 (or_introl eq_refl)))).
Defined.

(** [photo.JpEg]. *)
Lemma shouldSkipFile_extension_any_case_witness :
  isASCII ".JpEg" = true /\ In (lowerASCII ".JpEg") binaryExts
  /\ shouldSkipFile (H := linux) ("photo" +:+ ".JpEg") = true.
Proof.
  assert (H1 : isASCII ".JpEg" = true) by reflexivity.
  assert (H2 : In (lowerASCII ".JpEg") binaryExts) by (do 7 right; left; reflexivity).
  exact (conj H1 (conj H2
           (shouldSkipFile_extension_any_case (H := linux) "photo" ".JpEg" H1 H2))).
Defined.

(** [repo/b.txt] already ends with a newline. *)
Lemma checkAndFixFile_flag_irrelevant_witness :
  missingNewline (files world_ab) "repo/b.txt" = false
  /\ checkAndFixFile "repo/b.txt" true world_ab = checkAndFixFile "repo/b.txt" false world_ab
  /\ snd (checkAndFixFile "repo/b.txt" true world_ab) = world_ab.
Proof.
  assert (H1 : missingNewline (files world_ab) "repo/b.txt" = false)
    by (vm_compute; reflexivity).
  exact (conj H1 (checkAndFixFile_flag_irrelevant "repo/b.txt" world_ab H1)).
Defined.

(** [repo/a.txt] is fixed once. *)
Lemma checkAndFixFile_twice_witness :
  fixable (files world_ab) "repo/a.txt" = true
  /\ checkAndFixFile "repo/a.txt" true (snd (checkAndFixFile "repo/a.txt" true world_ab))
     = ((true, None), snd (checkAndFixFile "repo/a.txt" true world_ab)).
Proof.
  assert (H1 : fixable (files world_ab) "repo/a.txt" = true) by (vm_compute; reflexivity).
  exact (conj H1 (checkAndFixFile_twice "repo/a.txt" world_ab true H1)).
Defined.

(** The read-only [repo/a.txt]. *)
Lemma write_failure_reported_witness :
  files world_readonly !! "repo/a.txt"%string = Some (mkFile hello 292)
  /\ missingNewline (files world_readonly) "repo/a.txt" = true
  /\ ownerWritable (mkFile hello 292) = false
  /\ filepath_Walk [fileEntry "repo/a.txt"] (walkFn (H := linux) "repo" true)
       (mkStats 0 0 0 []) world_readonly
     = filepath_Walk [] (walkFn (H := linux) "repo" true)
         (mkStats (int_incr 0) 0 0 [])
         (mkWorld (files world_readonly)
            [mkWriteCall "repo/a.txt" (hello ++ [x0a]) perm_0o644]
            ["Error processing " +:+ relPathOf (H := linux) "repo" "repo/a.txt"
             +:+ ": " +:+ ("failed to write file: "
                           +:+ ("open " +:+ "repo/a.txt" +:+ ": permission denied"))
             +:+ nl]).
Proof.
  assert (H1 : files world_readonly !! "repo/a.txt"%string = Some (mkFile hello 292))
    by (vm_compute; reflexivity).
  assert (H2 : missingNewline (files world_readonly) "repo/a.txt" = true)
    by (vm_compute; reflexivity).
  assert (H3 : ownerWritable (mkFile hello 292) = false) by reflexivity.
  exact (conj H1 (conj H2 (conj H3
           (write_failure_reported (H := linux) "repo" (fileEntry "repo/a.txt") []
              (mkStats 0 0 0 []) world_readonly (mkFile hello 292)
              eq_refl eq_refl eq_refl H1 H2 H3)))).
Defined.

Lemma check_after_fix_reports_nothing_witness :
  (forall e f, In e (checked (H := linux) "repo" tree_ab) ->
               files world_ab !! we_path e = Some f -> ownerWritable f = true)
  /\ problematicFiles
       (run_stats
          (processRepository (H := linux) tree_ab "repo" false
             (run_world (processRepository (H := linux) tree_ab "repo" true world_ab))))
     = [].
Proof.
  assert (H2 : forall e f, In e (checked (H := linux) "repo" tree_ab) ->
                 files world_ab !! we_path e = Some f -> ownerWritable f = true).
  { intros e f Hin Hf. vm_compute in Hin.
    destruct Hin as [<-|[<-|[]]]; vm_compute in Hf; injection Hf as <-; reflexivity. }
  exact (conj H2 (check_after_fix_reports_nothing (H := linux) tree_ab "repo" world_ab H2)).
Defined.

(** The runs of [main] on the two-file tree: exit status 0 in check mode
    although [a.txt] misses its newline; status 1 with two positional
    arguments, and status 1 when [os.Stat] fails. *)
Example main_scenarios :
  exitCode (main (H := linux) "check-new-line" false ["repo"%string]
              (fun _ => inl (mkFileInfo true)) (fun _ => tree_ab) world_ab) = 0
  /\ exitCode (main (H := linux) "check-new-line" false ["repo"%string; "-fix"%string]
                 (fun _ => inl (mkFileInfo true)) (fun _ => tree_ab) world_ab) = 1
  /\ exitCode (main (H := linux) "check-new-line" false ["nowhere"%string]
                 (fun _ => inr "stat nowhere: no such file or directory"%string)
                 (fun _ => []) world_ab) = 1.
Proof. vm_compute. repeat split; reflexivity. Qed.

Lemma totals_depend_on_paths_only_witness :
  len tree_ab < 2 ^ 63
  /\ totalFiles (run_stats (processRepository (H := linux) tree_ab "repo" true world_ab))
     = len (checked (H := linux) "repo" tree_ab)
  /\ skippedFiles (run_stats (processRepository (H := linux) tree_ab "repo" true world_ab))
     = len (regularFiles tree_ab) - len (checked (H := linux) "repo" tree_ab).
Proof.
  assert (H1 : len tree_ab < 2 ^ 63) by (vm_compute; reflexivity).
  exact (conj H1 (totals_depend_on_paths_only (H := linux) tree_ab "repo" true world_ab H1)).
Defined.

(** [src/Makefile]. *)
Lemma shouldSkipFile_no_dot_witness :
  ~ In "."%char (list_ascii_of_string "src/Makefile")
  /\ shouldSkipFile (H := linux) "src/Makefile" = false.
Proof.
  assert (H1 : ~ In "."%char (list_ascii_of_string "src/Makefile")).
  { intros Hin. cbn in Hin.
    repeat (destruct Hin as [Hin|Hin]; [discriminate Hin|]). exact Hin. }
  exact (conj H1 (shouldSkipFile_no_dot (H := linux) "src/Makefile" H1)).
Defined.

(** ** The segments, the extension and the rewrite *)

(** [src/.cache/notes.txt] on Linux and [src\.git\config] on Windows: the
    segments [.cache] and [.git] hide the file whatever its extension. *)
Lemma shouldSkipFile_hidden_segment_witness :
  (In (String "." "cache")
      (Split (ToSlash (H := linux) ("src/" +:+ String "." "cache" +:+ "/notes.txt")) "/")
   /\ shouldSkipFile (H := linux) ("src/" +:+ String "." "cache" +:+ "/notes.txt") = true)
  /\ (In (String "." "git")
         (Split (ToSlash (H := mswindows) ("src\" +:+ String "." "git" +:+ "\config")) "/")
      /\ shouldSkipFile (H := mswindows) ("src\" +:+ String "." "git" +:+ "\config") = true).
Proof.
  assert (A1 : "src/"%string = EmptyString
               \/ (exists a0 s, "src/"%string = a0 +:+ String s EmptyString
                                /\ IsPathSeparator (H := linux) s = true)).
  { right. exists "src"%string, "/"%char. split; reflexivity. }
  assert (B1 : "/notes.txt"%string = EmptyString
               \/ (exists s b0, "/notes.txt"%string = String s b0
                                /\ IsPathSeparator (H := linux) s = true)).
  { right. exists "/"%char, "notes.txt"%string. split; reflexivity. }
  assert (C1 : forallb (fun c => negb (IsPathSeparator (H := linux) c))
                       (list_ascii_of_string "cache") = true) by reflexivity.
  assert (D1 : "cache"%string <> EmptyString) by discriminate.
  assert (A2 : "src\"%string = EmptyString
               \/ (exists a0 s, "src\"%string = a0 +:+ String s EmptyString
                                /\ IsPathSeparator (H := mswindows) s = true)).
  { right. exists "src"%string, "\"%char. split; reflexivity. }
  assert (B2 : "\config"%string = EmptyString
               \/ (exists s b0, "\config"%string = String s b0
                                /\ IsPathSeparator (H := mswindows) s = true)).
  { right. exists "\"%char, "config"%string. split; reflexivity. }
  assert (C2 : forallb (fun c => negb (IsPathSeparator (H := mswindows) c))
                       (list_ascii_of_string "git") = true) by reflexivity.
  assert (D2 : "git"%string <> EmptyString) by discriminate.
  exact (conj (shouldSkipFile_hidden_segment (H := linux)
                 "src/" "cache" "/notes.txt" A1 B1 C1 D1)
              (shouldSkipFile_hidden_segment (H := mswindows)
                 "src\" "git" "\config" A2 B2 C2 D2)).
Defined.

(** The same two paths as they are written.  On Linux a backslash is a
    byte of the name like any other, and the current-directory segment
    hides nothing. *)
Example shouldSkipFile_hidden_paths :
  shouldSkipFile (H := linux) "src/.cache/notes.txt" = true
  /\ shouldSkipFile (H := mswindows) "src\.git\config" = true
  /\ shouldSkipFile (H := linux) "src\.git\config" = false
  /\ shouldSkipFile (H := linux) "./src/main.go" = false.
Proof. vm_compute. repeat split; reflexivity. Qed.

(** [IMAGE.PNG] and [image.png] are both skipped; in [a.tar.gz] and in
    [C:\tmp.d\photo.JPG] the extension starts at the final dot of the
    final segment. *)
Lemma shouldSkipFile_denied_extension_witness :
  (Ext (H := linux) ("IMAGE" +:+ String "." "PNG") = String "." "PNG"
   /\ shouldSkipFile (H := linux) ("IMAGE" +:+ String "." "PNG") = true)
  /\ (Ext (H := linux) ("image" +:+ String "." "png") = String "." "png"
      /\ shouldSkipFile (H := linux) ("image" +:+ String "." "png") = true)
  /\ (Ext (H := linux) ("a.tar" +:+ String "." "gz") = String "." "gz"
      /\ shouldSkipFile (H := linux) ("a.tar" +:+ String "." "gz") = true)
  /\ (Ext (H := mswindows) ("C:\tmp.d\photo" +:+ String "." "JPG") = String "." "JPG"
      /\ shouldSkipFile (H := mswindows) ("C:\tmp.d\photo" +:+ String "." "JPG") = true).
Proof.
  assert (P1 : forallb (fun c => negb (IsPathSeparator (H := linux) c)
                                 && negb (Ascii.eqb c "."))
                       (list_ascii_of_string "PNG") = true) by reflexivity.
  assert (L1 : In (if isASCII (String "." "PNG") then lowerASCII (String "." "PNG")
                   else strings_MapToLower (Platform := linux) (String "." "PNG"))
                  spec_denyList) by (do 8 right; left; reflexivity).
  assert (P2 : forallb (fun c => negb (IsPathSeparator (H := linux) c)
                                 && negb (Ascii.eqb c "."))
                       (list_ascii_of_string "png") = true) by reflexivity.
  assert (L2 : In (if isASCII (String "." "png") then lowerASCII (String "." "png")
                   else strings_MapToLower (Platform := linux) (String "." "png"))
                  spec_denyList) by (do 8 right; left; reflexivity).
  assert (P3 : forallb (fun c => negb (IsPathSeparator (H := linux) c)
                                 && negb (Ascii.eqb c "."))
                       (list_ascii_of_string "gz") = true) by reflexivity.
  assert (L3 : In (if isASCII (String "." "gz") then lowerASCII (String "." "gz")
                   else strings_MapToLower (Platform := linux) (String "." "gz"))
                  spec_denyList) by (do 20 right; left; reflexivity).
  assert (P4 : forallb (fun c => negb (IsPathSeparator (H := mswindows) c)
                                 && negb (Ascii.eqb c "."))
                       (list_ascii_of_string "JPG") = true) by reflexivity.
  assert (L4 : In (if isASCII (String "." "JPG") then lowerASCII (String "." "JPG")
                   else strings_MapToLower (Platform := mswindows) (String "." "JPG"))
                  spec_denyList) by (do 6 right; left; reflexivity).
  exact (conj (shouldSkipFile_denied_extension (H := linux) "IMAGE" "PNG" P1 L1)
        (conj (shouldSkipFile_denied_extension (H := linux) "image" "png" P2 L2)
        (conj (shouldSkipFile_denied_extension (H := linux) "a.tar" "gz" P3 L3)
              (shouldSkipFile_denied_extension (H := mswindows) "C:\tmp.d\photo" "JPG"
                 P4 L4)))).
Defined.

(** The same names as they are written, and two names that are kept: the
    match is exact, and a listed extension that is not the final one
    does not count. *)
Example shouldSkipFile_extension_paths :
  shouldSkipFile (H := linux) "IMAGE.PNG" = true
  /\ shouldSkipFile (H := linux) "image.png" = true
  /\ shouldSkipFile (H := linux) "a.tar.gz" = true
  /\ shouldSkipFile (H := linux) "notes.pngx" = false
  /\ shouldSkipFile (H := linux) "archive.zip.txt" = false.
Proof. vm_compute. repeat split; reflexivity. Qed.

(** The run of fix mode on the two-file tree: [repo/a.txt] = "hello"
    becomes "hello\\n" and keeps its mode. *)
Lemma fix_pass_appends_newline_witness :
  In (fileEntry "repo/a.txt") (visited tree_ab)
  /\ files world_ab !! "repo/a.txt"%string = Some (mkFile hello 420)
  /\ hello <> [] /\ isBinary hello = false /\ last hello <> Some x0a
  /\ files (run_world (processRepository (H := linux) tree_ab "repo" true world_ab))
       !! "repo/a.txt"%string
     = Some (mkFile (hello ++ [x0a]) 420)
  /\ exists new,
       writes (run_world (processRepository (H := linux) tree_ab "repo" true world_ab))
       = writes world_ab ++ new
       /\ Forall (fun c => wc_perm c = 420) new
       /\ exists c, In c new /\ wc_data c = hello ++ [x0a].
Proof.
  assert (H1 : In (fileEntry "repo/a.txt") (visited tree_ab))
    by (right; left; reflexivity).
  assert (H2 : IsDir (we_info (fileEntry "repo/a.txt")) = false) by reflexivity.
  assert (H3 : shouldSkipFile (H := linux)
                 (relPathOf (H := linux) "repo" (we_path (fileEntry "repo/a.txt")))
               = false) by (vm_compute; reflexivity).
  assert (H4 : files world_ab !! we_path (fileEntry "repo/a.txt")
               = Some (mkFile hello 420)) by (vm_compute; reflexivity).
  assert (H5 : ownerReadable (mkFile hello 420) = true) by reflexivity.
  assert (H6 : ownerWritable (mkFile hello 420) = true) by reflexivity.
  assert (H7 : content (mkFile hello 420) <> []) by discriminate.
  assert (H8 : isBinary (content (mkFile hello 420)) = false) by (vm_compute; reflexivity).
  assert (H9 : last (content (mkFile hello 420)) <> Some x0a) by discriminate.
  exact (conj H1 (conj H4 (conj H7 (conj H8 (conj H9
           (fix_pass_appends_newline (H := linux) tree_ab "repo" world_ab
              (fileEntry "repo/a.txt") (mkFile hello 420)
              H1 H2 H3 H4 H5 H6 H7 H8 H9)))))).
Defined.

(** C5 as the specification states it fails: the read-only [repo/a.txt]
    is a non-empty text file without a final 0x0A that the walk visits
    and the path filter lets through, and after the run of fix mode it
    holds the five bytes it held before. *)
Lemma fix_pass_leaves_read_only_file :
  In (fileEntry "repo/a.txt") (visited tree_a)
  /\ shouldSkipFile (H := linux) (relPathOf (H := linux) "repo" "repo/a.txt") = false
  /\ files world_readonly !! "repo/a.txt"%string = Some (mkFile hello 292)
  /\ hello <> [] /\ isBinary hello = false /\ last hello <> Some x0a
  /\ files (run_world (processRepository (H := linux) tree_a "repo" true world_readonly))
       !! "repo/a.txt"%string
     = Some (mkFile hello 292)
  /\ mkFile hello 292 <> mkFile (hello ++ [x0a]) 292.
Proof.
  split; [right; left; reflexivity|].
  split; [vm_compute; reflexivity|].
  split; [vm_compute; reflexivity|].
  split; [discriminate|].
  split; [vm_compute; reflexivity|].
  split; [discriminate|].
  split; [vm_compute; reflexivity | discriminate].
Qed.

(** A file of mode 0600 that is fixed keeps mode 0600: the permission
    0644 is the argument of [os.WriteFile], which applies it only to a
    file it creates. *)
Example fix_pass_keeps_mode :
  files (run_world (processRepository (H := linux) tree_a "repo" true
                      (mkWorld (<["repo/a.txt"%string := mkFile hello 384]> ∅) [] [])))
    !! "repo/a.txt"%string
  = Some (mkFile (hello ++ [x0a]) 384).
Proof. vm_compute. reflexivity. Qed.
